(** * Aetherium Labyrinth: the run protocol and the leaderboard store

    A shallow embedding of the three programs of the repository:

    - [maze.ino], the sketch that runs on the board (module [Maze]);
    - [main.js], the Electron main process: the leaderboard workbook
      and the serial port handle (modules [Main] and [Serial], over the
      values of [JS] and the sheets of [Excel]);
    - [renderer.js], the UI script: the run timer and the ranked view
      (module [Renderer]), the clock, the end of a run and the
      statistics (module [View]).

    The modules [MazeRuns], [Store] and [Link] add what the properties
    of whole runs of the sketch, of the store over sequences of calls
    and of the discovery of the board are stated with.

    The definitions come first, module by module; the properties follow
    in the modules [MazeFacts], [MainFacts], [RankingFacts],
    [SerialFacts] and [RendererFacts], then [MazeRunFacts],
    [StoreFacts], [LinkFacts] and [ViewFacts].

    Conventions.  A JavaScript number is a [num]: an integer, one of the
    two infinities, or NaN; the finite numbers of the development are
    integers of the safe range (milliseconds and counters), for which
    [+ 1], [<] and the decimal rendering are exact.  Strings are
    sequences of bytes.  A worksheet is the list of its rows, a row the
    list of its cell values, both counted from 1 as ExcelJS does.  A
    workbook file is what it parses to: what ExcelJS makes of the text
    of a string cell between the write and the next read is a
    parameter of the handler ([cell_text] in [Main]), and the
    properties of what is read back after a write are stated for the
    strings that are read back as written. *)

From stdpp Require Import base list strings pretty gmap sorting.
From Stdlib Require Import ZArith Lia Ascii.

Local Open Scope string_scope.
Local Open Scope list_scope.
Local Open Scope Z_scope.

(* ===================================================================== *)
(** ** maze.ino *)
(* ===================================================================== *)

Module Maze.

Definition FALL_THRESHOLD : Z := 5.

(** The globals of the sketch, with the two servo positions last
    written and the lines printed on [Serial] so far. *)
Record board := Board {
  gameIsActive : bool;
  servoX : Z;
  servoY : Z;
  out : list string
}.

(** What one pass of [loop] reads from the outside: [rx] is the string
    [Serial.readStringUntil('\n')] returns when [Serial.available() > 0]
    ([None] when nothing is pending), [joyX] and [joyY] the two
    [analogRead]s, [dist] the value [getDistance()] returns.  The
    conversion of the echo duration inside [getDistance] is floating
    point and stays outside: the sample is taken once converted. *)
Record tick := Tick {
  rx : option string;
  joyX : Z;
  joyY : Z;
  dist : Z
}.

Definition println (s : string) (b : board) : board :=
  Board (gameIsActive b) (servoX b) (servoY b) (out b ++ [s]).

Definition set_active (a : bool) (b : board) : board :=
  Board a (servoX b) (servoY b) (out b).

Definition write_servos (x y : Z) (b : board) : board :=
  Board (gameIsActive b) x y (out b).

(** [isspace] of the C locale, as [String::trim] uses it. *)
Definition isspace (a : ascii) : bool :=
  let n := Z.of_nat (nat_of_ascii a) in
  (n =? 32) || ((9 <=? n) && (n <=? 13)).

Fixpoint ltrim (s : string) : string :=
  match s with
  | String a s' => if isspace a then ltrim s' else s
  | EmptyString => EmptyString
  end.

Definition trim (s : string) : string :=
  String.rev (ltrim (String.rev (ltrim s))).

(** Arduino's [map], on [long]: the division truncates. *)
Definition map_range (x in_min in_max out_min out_max : Z) : Z :=
  (x - in_min) * (out_max - out_min) ÷ (in_max - in_min) + out_min.

(** [void setup()]: both servos centred, the greeting printed. *)
Definition setup : board := Board false 90 90 ["Arduino Ready."].

(** First half of [loop]: the pending command, if any. *)
Definition handle_command (r : option string) (b : board) : board :=
  match r with
  | Some line =>
      let command := trim line in
      if bool_decide (command = "START") && negb (gameIsActive b)
      then println "Game Started!" (set_active true b)
      else b
  | None => b
  end.

(** The condition of line 59. *)
Definition fallen (distance : Z) : bool :=
  (0 <? distance) && (distance <? FALL_THRESHOLD).

(** Second half of [loop]: drive the servos and sample the distance,
    only while a game is active. *)
Definition play (t : tick) (b : board) : board :=
  if gameIsActive b then
    let angleX := map_range (joyX t) 0 1023 70 110 in
    let angleY := map_range (joyY t) 0 1023 80 110 in
    let b := write_servos angleX angleY b in
    let distance := dist t in
    if fallen distance
    then println "FINISH" (set_active false b)
    else b
  else b.

Definition loop (t : tick) (b : board) : board :=
  play t (handle_command (rx t) b).

(** The sketch after [setup] and one pass of [loop] per tick. *)
Definition run (ts : list tick) : board := foldl (fun b t => loop t b) setup ts.

(** The lines equal to ["FINISH"] among those printed, and those equal
    to ["Game Started!"]. *)
Definition finishes (l : list string) : nat :=
  length (filter (fun s => s = "FINISH") l).

Definition starts (l : list string) : nat :=
  length (filter (fun s => s = "Game Started!") l).

(** Every game started has finished, but the one that is active. *)
Definition balanced (b : board) : Prop :=
  starts (out b) = (finishes (out b) + if gameIsActive b then 1 else 0)%nat.

End Maze.

(* ===================================================================== *)
(** ** The JavaScript values the host programs compute with *)
(* ===================================================================== *)

Module JS.

(** A Number: a finite integer, [Infinity], [-Infinity] or [NaN]. *)
Inductive num := Fin (z : Z) | PInf | NInf | NaN.

(** The primitive values that travel through a cell, a field of a
    player object or a field of an IPC message. *)
Inductive value :=
| VUndef
| VNull
| VBool (b : bool)
| VNum (n : num)
| VStr (s : string).

#[global] Instance num_eq_dec : EqDecision num.
Proof. solve_decision. Defined.

#[global] Instance value_eq_dec : EqDecision value.
Proof. solve_decision. Defined.

(** ToBoolean: what [v ? a : b], [v || d] and [if (v)] test. *)
Definition truthy (v : value) : bool :=
  match v with
  | VUndef | VNull => false
  | VBool b => b
  | VNum (Fin z) => negb (z =? 0)
  | VNum NaN => false
  | VNum _ => true
  | VStr s => negb (bool_decide (s = ""))
  end.

(** [String(n)]: the digits of a finite Number, which is what the
    runtime gives for the integers of the safe range (see
    [exact_rendering] below). *)
Definition num_to_string (n : num) : string :=
  match n with
  | Fin z => pretty z
  | PInf => "Infinity"
  | NInf => "-Infinity"
  | NaN => "NaN"
  end.

(** [String(v)], also what a template literal does to [v]. *)
Definition ToString (v : value) : string :=
  match v with
  | VUndef => "undefined"
  | VNull => "null"
  | VBool true => "true"
  | VBool false => "false"
  | VNum n => num_to_string n
  | VStr s => s
  end.

(** The values [ToString] renders as [String] does.  A finite Number
    is rendered in decimal digits, which is what the runtime does for
    the integers of the safe range; beyond it the runtime rounds the
    digits, and from 1e21 on it writes an exponent. *)
Definition MAX_SAFE_INTEGER : Z := 9007199254740991.

Definition exact_rendering (v : value) : Prop :=
  match v with
  | VNum (Fin z) => - MAX_SAFE_INTEGER ≤ z ≤ MAX_SAFE_INTEGER
  | _ => True
  end.

#[global] Instance exact_rendering_dec v : Decision (exact_rendering v).
Proof. destruct v as [| | |[]|]; simpl; apply _. Defined.

(** [Number(v)].  The numeric value of a string is computed by the
    runtime from the grammar of numeric literals; the development is
    parametric in that function. *)
Definition ToNumber (StringToNumber : string -> num) (v : value) : num :=
  match v with
  | VUndef => NaN
  | VNull => Fin 0
  | VBool true => Fin 1
  | VBool false => Fin 0
  | VNum n => n
  | VStr s => StringToNumber s
  end.

(** [a < b] on Numbers. *)
Definition num_lt (a b : num) : bool :=
  match a, b with
  | NaN, _ | _, NaN => false
  | Fin x, Fin y => x <? y
  | Fin _, PInf => true
  | Fin _, NInf => false
  | PInf, _ => false
  | NInf, NInf => false
  | NInf, _ => true
  end.

(** [a === b]. *)
Definition strict_eq (a b : value) : bool :=
  match a, b with
  | VNum NaN, _ | _, VNum NaN => false
  | _, _ => bool_decide (a = b)
  end.

(** [n || 0] on a Number. *)
Definition or_zero (n : num) : num :=
  match n with
  | NaN => Fin 0
  | _ => n
  end.

(** [n + 1] on a Number. *)
Definition plus_one (n : num) : num :=
  match n with
  | Fin z => Fin (z + 1)
  | _ => n
  end.

Definition lower (a : ascii) : ascii :=
  let n := nat_of_ascii a in
  if ((65 <=? n) && (n <=? 90))%nat then ascii_of_nat (n + 32) else a.

(** [s.toLowerCase()] on the letters A to Z; a byte outside them is
    kept, so the result is ["true"] exactly when the runtime's is. *)
Fixpoint toLowerCase (s : string) : string :=
  match s with
  | EmptyString => EmptyString
  | String a s' => String (lower a) (toLowerCase s')
  end.

(** A decimal reading of a string, the instance of the parameter of
    [ToNumber] the examples are run with: the empty string is 0, a run
    of digits its value, and anything else [NaN].  No example holds a
    string in a numeric column, so none depends on it. *)
Definition digit (a : ascii) : option Z :=
  let n := Z.of_nat (nat_of_ascii a) in
  if (48 <=? n) && (n <=? 57) then Some (n - 48) else None.

Fixpoint digits (acc : Z) (s : string) : num :=
  match s with
  | EmptyString => Fin acc
  | String a s' =>
      match digit a with
      | Some d => digits (10 * acc + d) s'
      | None => NaN
      end
  end.

Definition decimal (s : string) : num := digits 0 s.

(** [trim] and [toUpperCase] on ASCII text, instances of the
    parameters of [Renderer.handleStartTrial]: the white space of
    ASCII is the one [Maze.trim] removes. *)
Definition trim_ascii : string -> string := Maze.trim.

Definition upper (a : ascii) : ascii :=
  let n := nat_of_ascii a in
  if ((97 <=? n) && (n <=? 122))%nat then ascii_of_nat (n - 32) else a.

Fixpoint toUpperCase_ascii (s : string) : string :=
  match s with
  | EmptyString => EmptyString
  | String a s' => String (upper a) (toUpperCase_ascii s')
  end.

End JS.

(* ===================================================================== *)
(** ** The workbook file, as ExcelJS shows it *)
(* ===================================================================== *)

Module Excel.
Import JS.

(** Column [c] of a row is at position [c - 1], row [r] of a sheet at
    position [r - 1]; an empty cell holds [VNull]. *)
Definition row := list value.
Definition worksheet := list row.
Definition workbook := list (string * worksheet).

(** The file at [LEADERBOARD_PATH]: missing, of size 0, of a content
    [workbook.xlsx.readFile] rejects, or a workbook. *)
Inductive file :=
| Absent
| Zero
| Garbage
| Xlsx (wb : workbook).

Definition existsSync (f : file) : bool :=
  match f with Absent => false | _ => true end.

Definition size_is_zero (f : file) : bool :=
  match f with Zero => true | _ => false end.

(** [readFile]: [None] stands for the rejected promise. *)
Definition readFile (f : file) : option workbook :=
  match f with
  | Xlsx wb => Some wb
  | _ => None
  end.

Definition getWorksheet (name : string) (wb : workbook) : option worksheet :=
  match list_find (fun s => s.1 = name) wb with
  | Some (_, s) => Some s.2
  | None => None
  end.

Definition rowCount (sh : worksheet) : nat := length sh.

(** [getRow(n)]: a row that does not exist yet is created empty. *)
Definition getRow (n : nat) (sh : worksheet) : row :=
  default [] (sh !! Nat.pred n).

Definition is_null (v : value) : bool :=
  match v with VNull | VUndef => true | _ => false end.

Definition hasValues (r : row) : bool := existsb (fun v => negb (is_null v)) r.

(** [row.values.length]: the sparse array [row.values] has the value of
    each non-empty cell at the index of its column. *)
Fixpoint values_length_from (col : nat) (r : row) : nat :=
  match r with
  | [] => 0
  | v :: r' =>
      match values_length_from (S col) r' with
      | O => if is_null v then 0%nat else S col
      | n => n
      end
  end.

Definition values_length (r : row) : nat := values_length_from 1 r.

(** The cells of a row with their column numbers. *)
Definition numbered (r : row) : list (nat * value) := imap (fun i v => (S i, v)) r.

(** [row.eachCell(f)] visits the non-empty cells,
    [row.eachCell({includeEmpty: true}, f)] all of them up to the last. *)
Definition eachCell (includeEmpty : bool) (r : row) : list (nat * value) :=
  if includeEmpty then numbered r
  else filter (fun cv => is_null cv.2 = false) (numbered r).

(** [sheet.eachRow(f)] visits the rows that have values. *)
Definition eachRow (sh : worksheet) : list (nat * row) :=
  filter (fun nr => hasValues nr.2 = true) (imap (fun i r => (S i, r)) sh).

(** What a cell keeps of a value written to it, in the workbook in
    memory; what the file shows of a string is below. *)
Definition to_cell (v : value) : value :=
  match v with VUndef => VNull | _ => v end.

(** *** The text of a string cell

    ExcelJS writes the text of a string cell into the XML of the
    workbook and decodes it when it reads the workbook again, so a
    string is not always read back as it was written.  The development
    is parametric in what a string is read back as (the [cell_text] of
    [Main]).  [xlsx_text] is the instance the examples are run with.
    It has the two behaviours of the library the examples meet: the
    reader replaces each [_xHHHH_], with four digits of upper-case
    hexadecimal, by the character of that code, from left to right,
    and a workbook whose text holds U+FFFE or U+FFFF does not parse
    ([None]).  Any other text is read back as written; strings being
    sequences of bytes, a character is its UTF-8 encoding. *)
Definition hex (a : ascii) : option N :=
  let n := N_of_ascii a in
  if ((48 <=? n) && (n <=? 57))%N then Some (n - 48)%N
  else if ((65 <=? n) && (n <=? 70))%N then Some (n - 55)%N
  else None.

Definition utf8 (n : N) : string :=
  if (n <? 128)%N then String (ascii_of_N n) ""
  else if (n <? 2048)%N then
    String (ascii_of_N (192 + n / 64)) (String (ascii_of_N (128 + n mod 64)) "")
  else
    String (ascii_of_N (224 + n / 4096))
      (String (ascii_of_N (128 + (n / 64) mod 64))
         (String (ascii_of_N (128 + n mod 64)) "")).

(** The character an escape at the head of [s] stands for. *)
Definition escape_at (s : string) : option string :=
  match s with
  | String "_" (String "x" (String a (String b (String c (String d
      (String "_" _)))))) =>
      match hex a, hex b, hex c, hex d with
      | Some h3, Some h2, Some h1, Some h0 =>
          Some (utf8 (4096 * h3 + 256 * h2 + 16 * h1 + h0)%N)
      | _, _, _, _ => None
      end
  | _ => None
  end.

(** [text.replace(/_x([0-9A-F]{4})_/g, ...)]; [skip] counts the bytes
    of an escape that are still to be passed over. *)
Fixpoint unescape (skip : nat) (s : string) : string :=
  match s with
  | EmptyString => EmptyString
  | String a s' =>
      match skip with
      | S k => unescape k s'
      | O =>
          match escape_at s with
          | Some ch => ch +:+ unescape 6 s'
          | None => String a (unescape 0 s')
          end
      end
  end.

(** U+FFFE or U+FFFF occurs in [s]. *)
Fixpoint has_noncharacter (s : string) : bool :=
  match s with
  | EmptyString => false
  | String a s' =>
      match s' with
      | String b (String c _) =>
          (Ascii.eqb a "239" && Ascii.eqb b "191"
           && (Ascii.eqb c "190" || Ascii.eqb c "191"))
          || has_noncharacter s'
      | _ => false
      end
  end.

Definition xlsx_text (s : string) : option string :=
  if has_noncharacter s then None else Some (unescape 0 s).

(** U+FFFE, as a string. *)
Definition U_FFFE : string := String "239" (String "191" (String "190" "")).

End Excel.

(* ===================================================================== *)
(** ** main.js: the leaderboard *)
(* ===================================================================== *)

Module Main.
Import JS Excel.

Inductive key := Kname | KrollNo | Ktime | Ksuccesses | Kdefeats | KhasImproved.

#[global] Instance key_eq_dec : EqDecision key.
Proof. solve_decision. Defined.

(** [excelColumns], without the widths. *)
Definition excelColumns : list (string * key) :=
  [ ("Name", Kname); ("RollNo", KrollNo); ("BestTime", Ktime);
    ("Successes", Ksuccesses); ("Defeats", Kdefeats);
    ("HasImproved", KhasImproved) ].

(** The object [player = {}] while the cells of its row are copied in:
    a field not assigned yet reads [undefined]. *)
Record fields := Fields {
  f_name : value;
  f_rollNo : value;
  f_time : value;
  f_successes : value;
  f_defeats : value;
  f_hasImproved : value
}.

Definition no_fields : fields := Fields VUndef VUndef VUndef VUndef VUndef VUndef.

Definition set_field (k : key) (v : value) (o : fields) : fields :=
  match k with
  | Kname => Fields v (f_rollNo o) (f_time o) (f_successes o) (f_defeats o) (f_hasImproved o)
  | KrollNo => Fields (f_name o) v (f_time o) (f_successes o) (f_defeats o) (f_hasImproved o)
  | Ktime => Fields (f_name o) (f_rollNo o) v (f_successes o) (f_defeats o) (f_hasImproved o)
  | Ksuccesses => Fields (f_name o) (f_rollNo o) (f_time o) v (f_defeats o) (f_hasImproved o)
  | Kdefeats => Fields (f_name o) (f_rollNo o) (f_time o) (f_successes o) v (f_hasImproved o)
  | KhasImproved => Fields (f_name o) (f_rollNo o) (f_time o) (f_successes o) (f_defeats o) v
  end.

(** A player of the array [data]: the object once sanitized. *)
Record player := Player {
  name : value;
  rollNo : string;
  time : num;
  successes : num;
  defeats : num;
  hasImproved : bool
}.

(** The message of ['excel:save-data'], the [currentPlayer] of the
    renderer: [time] is [Date.now() - startTime], an integer. *)
Record entry := Entry {
  e_name : value;
  e_rollNo : value;
  e_time : Z;
  e_status : value
}.

(** [excelColumns.find(c => c.header === cell.value)]. *)
Definition columnDef (v : value) : option key :=
  match list_find (fun c => strict_eq (VStr c.1) v = true) excelColumns with
  | Some (_, c) => Some c.2
  | None => None
  end.

(** [headerKeyMap], filled by [headerRow.eachCell]. *)
Definition headerKeyMap (headerRow : row) : gmap nat key :=
  foldl (fun m cv =>
           match columnDef cv.2 with
           | Some k => <[cv.1 := k]> m
           | None => m
           end)
        ∅ (eachCell false headerRow).

(** The inner [row.eachCell] of [readData]. *)
Definition read_cells (hk : gmap nat key) (r : row) : fields :=
  foldl (fun o cv =>
           match hk !! cv.1 with
           | Some k => set_field k cv.2 o
           | None => o
           end)
        no_fields (eachCell true r).

Section Runtime.
Variable StringToNumber : string -> num.

Local Abbreviation Number := (ToNumber StringToNumber).

(** Lines 223 to 227. *)
Definition sanitize (o : fields) : player :=
  {| name := f_name o;
     rollNo := ToString (if truthy (f_rollNo o) then f_rollNo o else VStr "");
     successes := or_zero (Number (f_successes o));
     defeats := or_zero (Number (f_defeats o));
     time := if truthy (f_time o) then Number (f_time o) else PInf;
     hasImproved :=
       strict_eq (f_hasImproved o) (VBool true)
       || bool_decide (toLowerCase (ToString (f_hasImproved o)) = "true") |}.

(** The body of [sheet.eachRow]: the rows after the first, kept when
    their roll number is not empty. *)
Definition read_rows (hk : gmap nat key) (sh : worksheet) : list player :=
  omap (fun nr : nat * row =>
          if (1 <? nr.1)%nat then
            let p := sanitize (read_cells hk nr.2) in
            if truthy (VStr (rollNo p)) then Some p else None
          else None)
       (eachRow sh).

(** [readData]: every early [return []] and the [catch]. *)
Definition readData (f : file) : list player :=
  if negb (existsSync f) || size_is_zero f then []
  else
    match readFile f with
    | None => []
    | Some workbook =>
        match getWorksheet "Leaderboard" workbook with
        | None => []
        | Some sheet =>
            if (rowCount sheet <=? 1)%nat then []
            else
              let headerRow := getRow 1 sheet in
              if (values_length headerRow =? 0)%nat then []
              else read_rows (headerKeyMap headerRow) sheet
        end
    end.

(** *** The handler of ['excel:save-data'] *)

Definition is_success (e : entry) : bool := strict_eq (e_status e) (VStr "success").
Definition is_defeat (e : entry) : bool := strict_eq (e_status e) (VStr "defeat").

(** [data.forEach(p => p.hasImproved = false)], on one element. *)
Definition clear_flag (p : player) : player :=
  Player (name p) (rollNo p) (time p) (successes p) (defeats p) false.

(** Lines 254 to 264: the player exists. *)
Definition record_run (e : entry) (p : player) : player :=
  if is_success e then
    let n := plus_one (or_zero (successes p)) in
    if num_lt (Fin (e_time e)) (time p)
    then Player (e_name e) (rollNo p) (Fin (e_time e)) n (defeats p) true
    else Player (name p) (rollNo p) (time p) n (defeats p) (hasImproved p)
  else
    Player (name p) (rollNo p) (time p) (successes p)
           (plus_one (or_zero (defeats p))) (hasImproved p).

(** Lines 267 to 274: a new player. *)
Definition new_player (e : entry) : player :=
  {| name := e_name e;
     rollNo := ToString (e_rollNo e);
     time := if is_success e then Fin (e_time e) else PInf;
     successes := if is_success e then Fin 1 else Fin 0;
     defeats := if is_defeat e then Fin 1 else Fin 0;
     hasImproved := is_success e |}.

Definition findIndex (id : string) (data : list player) : option nat :=
  fst <$> list_find (fun p => rollNo p = id) data.

(** Lines 247 to 275, on the array that was loaded. *)
Definition update (data : list player) (newEntry : entry) : list player :=
  let newEntryRollNo := ToString (e_rollNo newEntry) in
  let existingPlayerIndex := findIndex newEntryRollNo data in
  let data := clear_flag <$> data in
  match existingPlayerIndex with
  | Some i => alter (record_run newEntry) i data
  | None => data ++ [new_player newEntry]
  end.

Definition get_field (k : key) (p : player) : value :=
  match k with
  | Kname => name p
  | KrollNo => VStr (rollNo p)
  | Ktime => VNum (time p)
  | Ksuccesses => VNum (successes p)
  | Kdefeats => VNum (defeats p)
  | KhasImproved => VBool (hasImproved p)
  end.

(** [sheet.columns = excelColumns] writes the headers in row 1. *)
Definition headers : row := (fun c => VStr c.1) <$> excelColumns.

(** [sheet.addRows(data)], on one element: a cell per column key. *)
Definition to_row (p : player) : row :=
  (fun c => to_cell (get_field c.2 p)) <$> excelColumns.

(** Lines 278 to 281: the workbook built in memory. *)
Definition new_workbook (data : list player) : workbook :=
  [ ("Leaderboard", headers :: (to_row <$> data)) ].

(** The answer of the handler. *)
Inductive reply := Success | Failure (error : string).

(** What ExcelJS reads back from a string cell it wrote with the text
    [s]: [None] when the workbook written does not parse again.  The
    six headers are read back as written. *)
Variable cell_text : string -> option string.

(** A cell of the workbook written, as the file shows it when it is
    read. *)
Definition written_cell (v : value) : option value :=
  match v with
  | VStr s => VStr <$> cell_text s
  | _ => Some v
  end.

(** [workbook.xlsx.writeFile] of the workbook of lines 278 to 281, when
    it completes: the file that replaces the old one, a workbook with
    the rows as they are read back, or a file [readFile] rejects. *)
Definition writeFile (data : list player) : file :=
  match mapM (fun p => mapM written_cell (to_row p)) data with
  | Some rows => Xlsx [ ("Leaderboard", headers :: rows) ]
  | None => Garbage
  end.

(** The handler.  [disk] is what [writeFile] does: [None] when it
    completes, [Some error] when it throws; a write that throws is
    taken to leave the file as it was. *)
Definition save_data (disk : option string) (f : file) (newEntry : entry)
  : reply * file :=
  let data := update (readData f) newEntry in
  match disk with
  | None => (Success, writeFile data)
  | Some error => (Failure error, f)
  end.

(** One call that completes, and a sequence of them, one after the
    other. *)
Definition apply (f : file) (e : entry) : file := (save_data None f e).2.

Definition apply_all (f : file) (es : list entry) : file := foldl apply f es.

(** *** Calls in flight

    The handler is an [async] function with two suspension points,
    [await readData()] and [await workbook.xlsx.writeFile(...)];
    what lies between them runs without interruption.  A call is
    therefore two steps, the load (with the update of the loaded
    array) and the write, and the steps of different calls are run
    in the order in which their promises settle. *)
Inductive call :=
| Invoked (newEntry : entry)
| Loaded (data : list player)
| Returned.

Definition calls := (file * list call)%type.

(** The next step of call [i]. *)
Definition advance (s : calls) (i : nat) : calls :=
  match s.2 !! i with
  | Some (Invoked e) => (s.1, <[i := Loaded (update (readData s.1) e)]> s.2)
  | Some (Loaded data) => (writeFile data, <[i := Returned]> s.2)
  | _ => s
  end.

(** A schedule names the call that steps next. *)
Definition exec (s : calls) (schedule : list nat) : calls := foldl advance s schedule.

Definition in_flight (c : call) : bool :=
  match c with Loaded _ => true | _ => false end.

(** Calls that have loaded and not yet written. *)
Definition overlapping (s : calls) : nat := length (filter (fun c => in_flight c = true) s.2).

(** *** Strings the workbook keeps

    A string is plain when it is read back as it was written; a
    player, when its name (if it is a string) and its roll number are;
    a message, when its name is, its roll number is rendered as
    [String] renders it, and the rendering is plain. *)
Definition plain (s : string) : Prop := cell_text s = Some s.

Definition plain_value (v : value) : Prop :=
  match v with
  | VStr s => plain s
  | _ => True
  end.

Definition plain_player (p : player) : Prop :=
  plain_value (name p) ∧ plain (rollNo p).

Definition plain_entry (e : entry) : Prop :=
  plain_value (e_name e) ∧ exact_rendering (e_rollNo e) ∧
  plain (ToString (e_rollNo e)).

#[global] Instance plain_dec s : Decision (plain s).
Proof. unfold plain. apply _. Defined.

#[global] Instance plain_value_dec v : Decision (plain_value v).
Proof. destruct v; simpl; apply _. Defined.

#[global] Instance plain_player_dec p : Decision (plain_player p).
Proof. unfold plain_player. apply _. Defined.

#[global] Instance plain_entry_dec e : Decision (plain_entry e).
Proof. unfold plain_entry. apply _. Defined.

(** A player as the file shows it once written. *)
Definition stored_player (p : player) : option player :=
  n ← written_cell (name p);
  r ← cell_text (rollNo p);
  Some (Player n r (time p) (successes p) (defeats p) (hasImproved p)).

End Runtime.

(** *** Vocabulary of the statements *)

(** The file [initializeLeaderboard] creates: the headers alone. *)
Definition fresh : file := Xlsx (new_workbook []).

(** A player as [readData] gives it back once written by the handler,
    its strings being kept as written: an undefined name comes back
    [null], a best time of 0 or [NaN] comes back [Infinity]. *)
Definition reload (p : player) : player :=
  Player (to_cell (name p)) (rollNo p)
         (if truthy (VNum (time p)) then time p else PInf)
         (or_zero (successes p)) (or_zero (defeats p)) (hasImproved p).

(** The first player of [data] with the roll number [id]. *)
Definition lookup_player (id : string) (data : list player) : option player :=
  snd <$> list_find (fun p => rollNo p = id) data.

(** The index the handler writes to: that of the player when there is
    one, the end of the array when there is none. *)
Definition target (id : string) (data : list player) : nat :=
  default (length data) (findIndex id data).

(** The run of [e] is below the best time on record. *)
Definition lowers (e : entry) (data : list player) : bool :=
  match lookup_player (ToString (e_rollNo e)) data with
  | Some p => num_lt (Fin (e_time e)) (time p)
  | None => false
  end.

(** No success is on record for the player of [e]. *)
Definition first_success (e : entry) (data : list player) : bool :=
  match lookup_player (ToString (e_rollNo e)) data with
  | Some p => bool_decide (successes p = Fin 0)
  | None => true
  end.

(** A record as the handler keeps them: a count of successes, and no
    best time before the first success. *)
Definition sound (p : player) : Prop :=
  (∃ n, successes p = Fin n ∧ 0 ≤ n) ∧ (successes p = Fin 0 → time p = PInf).



(** The test of line 229. *)
Definition kept (p : player) : option player :=
  if truthy (VStr (rollNo p)) then Some p else None.

(** The least of [x] and the elements of [l]. *)
Definition finite_min (x : Z) (l : list Z) : Z := foldl Z.min x l.

(** The best time on record for [id], when there is a record. *)
Definition best (id : string) (data : list player) : option num :=
  time <$> lookup_player id data.

(** [e] is a successful run of the player [id]. *)
Definition success_of (id : string) (e : entry) : Prop :=
  ToString (e_rollNo e) = id ∧ is_success e = true.

End Main.

(* ===================================================================== *)
(** ** main.js: the serial port *)
(* ===================================================================== *)

Module Serial.

(** A [SerialPort] object; [ident] tells one object from another. *)
Record serialport := SerialPort {
  path : string;
  isOpen : bool;
  ident : nat
}.

(** What the port objects emit, in order. *)
Inductive event :=
| EvOpen (path : string) (ident : nat)
| EvError (path : string) (ident : nat)
| EvClose (path : string) (ident : nat).

#[global] Instance event_eq_dec : EqDecision event.
Proof. solve_decision. Defined.

(** The global [port] ([None]: not assigned yet), whether [mainWindow]
    is set, the events emitted and the channels sent to the window. *)
Record transport := Transport {
  port : option serialport;
  mainWindow : bool;
  events : list event;
  sent : list string;
  objects : nat
}.

Definition start : transport := Transport None true [] [] 0.

Definition notify (channel : string) (t : transport) : transport :=
  if mainWindow t
  then Transport (port t) true (events t) (sent t ++ [channel]) (objects t)
  else t.

(** [createNewPort]: the new object replaces the global; it opens by
    itself, and [opens] tells whether the device lets it. *)
Definition createNewPort (opens : bool) (portPath : string) (t : transport) : transport :=
  let n := S (objects t) in
  if opens then
    Transport (Some (SerialPort portPath true n)) (mainWindow t)
              (events t ++ [EvOpen portPath n]) (sent t) n
  else
    notify "serial:error"
      (Transport (Some (SerialPort portPath false n)) (mainWindow t)
                 (events t ++ [EvError portPath n]) (sent t) n).

(** [port.close()] on an open port: the object is closed and its
    ['close'] listener tells the window. *)
Definition close (p : serialport) (t : transport) : transport :=
  notify "serial:closed"
    (Transport (Some (SerialPort (path p) false (ident p))) (mainWindow t)
               (events t ++ [EvClose (path p) (ident p)]) (sent t) (objects t)).

Definition is_open (t : transport) : bool :=
  match port t with
  | Some p => isOpen p
  | None => false
  end.

(** [connectToPort]. *)
Definition connectToPort (opens : bool) (portPath : string) (t : transport) : transport :=
  match port t with
  | Some p =>
      if isOpen p then createNewPort opens portPath (close p t)
      else createNewPort opens portPath t
  | None => createNewPort opens portPath t
  end.

(** The close of ['window-all-closed']:
    [if (port && port.isOpen) port.close()]. *)
Definition close_if_open (t : transport) : transport :=
  match port t with
  | Some p => if isOpen p then close p t else t
  | None => t
  end.

End Serial.

(* ===================================================================== *)
(** ** renderer.js *)
(* ===================================================================== *)

Module Renderer.
Import JS.

(** *** The ranked view *)

Section Ranking.
Import Main.

(** The comparator [(a, b) => a.time - b.time] is positive when
    [b.time < a.time]; a difference that is [NaN] counts as 0. *)
Definition after (a b : player) : bool := num_lt (time b) (time a).

Fixpoint insert_by_time (a : player) (l : list player) : list player :=
  match l with
  | [] => [a]
  | b :: l' => if after a b then b :: insert_by_time a l' else a :: b :: l'
  end.

(** [Array.prototype.sort] is stable: elements the comparator does
    not order keep their places. *)
Definition sort_by_time (l : list player) : list player := foldr insert_by_time [] l.

(** Line 108. *)
Definition sortedData (data : list player) : list player :=
  sort_by_time (filter (fun p => strict_eq (VNum (time p)) (VNum PInf) = false) data).

Definition top10 (data : list player) : list player := take 10 (sortedData data).

End Ranking.

(** *** The run timer *)

Inductive screen := Welcome | Game | Leaderboard.

Record current := Current {
  cp_name : string;
  cp_rollNo : string
}.

(** The globals and the parts of the page [handleStartTrial] touches.
    [timers] holds the handles of the intervals that are set and not
    cleared, [next_handle] the handle [setInterval] returns next (they
    are positive and never reused), [commands] what went through
    [electronAPI.sendCommand]. *)
Record page := Page {
  timerInterval : option nat;
  startTime : option Z;
  currentPlayer : current;
  name_input : string;
  rollNo_input : string;
  errorMessage : string;
  playerInfo : string;
  active : screen;
  timers : list nat;
  next_handle : nat;
  commands : list string
}.

Definition initial : page :=
  Page None None (Current "" "") "" "" "" "" Welcome [] 1 [].

(** A run is being timed: [timerInterval] is truthy. *)
Definition timed (p : page) : bool :=
  match timerInterval p with
  | Some (S _) => true
  | _ => false
  end.

(** [startTimer], at the instant [now] of [Date.now()]. *)
Definition startTimer (now : Z) (p : page) : page :=
  let h := next_handle p in
  Page (Some h) (Some now) (currentPlayer p) (name_input p) (rollNo_input p)
       (errorMessage p) (playerInfo p) (active p)
       (h :: timers p) (S h) (commands p).

(** The page as [handleStartTrial] leaves it at the instant 1000, with
    Amy and p1 in the two inputs: her run is being timed, and the
    inputs still hold what she typed. *)
Definition amy_playing : page :=
  Page (Some 1%nat) (Some 1000) (Current "AMY" "p1") "Amy" "p1" "" "Now Playing: AMY"
       Game [1%nat] 2 ["START"].

Section Strings.
(** [String.prototype.trim] and [toUpperCase] of the runtime. *)
Variable trim : string -> string.
Variable toUpperCase : string -> string.

Definition handleStartTrial (now : Z) (p : page) : page :=
  let name := trim (name_input p) in
  let rollNo := trim (rollNo_input p) in
  if bool_decide (name = "") || bool_decide (rollNo = "") then
    Page (timerInterval p) (startTime p) (currentPlayer p) (name_input p)
         (rollNo_input p) "Player Name and Roll Number are required."
         (playerInfo p) (active p) (timers p) (next_handle p) (commands p)
  else
    let name := toUpperCase name in
    startTimer now
      (Page (timerInterval p) (startTime p) (Current name rollNo)
            (name_input p) (rollNo_input p) ""
            ("Now Playing: " +:+ name) Game (timers p) (next_handle p)
            (commands p ++ ["START"])).

End Strings.

End Renderer.


(* ===================================================================== *)
(** ** maze.ino: what a run is fed *)
(* ===================================================================== *)

Module MazeRuns.
Import Maze.

(** Both [analogRead]s are in the range of the converter. *)
Definition analog (t : tick) : Prop :=
  0 ≤ joyX t ≤ 1023 ∧ 0 ≤ joyY t ≤ 1023.

(** The pass receives no START. *)
Definition no_start (t : tick) : Prop :=
  ∀ line, rx t = Some line → trim line ≠ "START".

End MazeRuns.

(* ===================================================================== *)
(** ** main.js: the leaderboard, start-up and bookkeeping *)
(* ===================================================================== *)

Module Store.
Import JS Excel Main.

(** [initializeLeaderboard]: [fs.promises.access] succeeds when the file
    exists, whatever it holds; when it throws, a workbook with the
    Leaderboard sheet and the headers is written. *)
Definition initializeLeaderboard (f : file) : file :=
  if existsSync f then f else Xlsx (new_workbook []).

(** [player[key]] on the object being filled. *)
Definition get_raw (k : key) (o : fields) : value :=
  match k with
  | Kname => f_name o
  | KrollNo => f_rollNo o
  | Ktime => f_time o
  | Ksuccesses => f_successes o
  | Kdefeats => f_defeats o
  | KhasImproved => f_hasImproved o
  end.

(** The header of [excelColumns] that goes with a key. *)
Definition header_of (k : key) : string :=
  match k with
  | Kname => "Name"
  | KrollNo => "RollNo"
  | Ktime => "BestTime"
  | Ksuccesses => "Successes"
  | Kdefeats => "Defeats"
  | KhasImproved => "HasImproved"
  end.

(** A player that reads back as it is written: a name, a roll number,
    a best time other than 0 and [NaN], counters other than [NaN]. *)
Definition storable (p : player) : Prop :=
  name p ≠ VUndef ∧ rollNo p ≠ "" ∧ truthy (VNum (time p)) = true ∧
  successes p ≠ NaN ∧ defeats p ≠ NaN.

(** A run as the renderer sends them: a roll number that does not
    render empty, the status success or defeat. *)
Definition well_formed (e : entry) : Prop :=
  ToString (e_rollNo e) ≠ "" ∧ (is_success e = true ∨ is_defeat e = true).

#[global] Instance well_formed_dec e : Decision (well_formed e).
Proof. unfold well_formed. apply _. Defined.

(** The runs of the player [id] among [es], the successful ones and the
    others. *)
Definition runs_of (id : string) (es : list entry) : list entry :=
  filter (fun e => ToString (e_rollNo e) = id) es.

Definition wins (id : string) (es : list entry) : list entry :=
  filter (fun e => is_success e = true) (runs_of id es).

Definition losses (id : string) (es : list entry) : list entry :=
  filter (fun e => is_success e = false) (runs_of id es).

(** The least of two Numbers, the second finite. *)
Definition num_min (b : num) (t : Z) : num :=
  if num_lt (Fin t) b then Fin t else b.

(** The least elapsed time of a list of runs, [Infinity] when empty. *)
Definition least (es : list entry) : num :=
  foldl (fun b e => num_min b (e_time e)) PInf es.

(** The best time and the two counters of a record. *)
Definition summary (p : player) : num * num * num :=
  (time p, successes p, defeats p).

End Store.

(* ===================================================================== *)
(** ** main.js: finding the board and sending to it *)
(* ===================================================================== *)

Module Link.
Import Serial.

(** What [SerialPort.list()] tells of a port: its path and its
    manufacturer, [None] when the field is undefined. *)
Record portinfo := PortInfo {
  pi_path : string;
  manufacturer : option string
}.

(** [s.includes(needle)]: [needle] starts at some position of [s]. *)
Fixpoint includes (needle s : string) : bool :=
  String.prefix needle s
  || match s with
     | EmptyString => false
     | String _ s' => includes needle s'
     end.

(** The test of [ports.find], lines 91 to 94. *)
Definition is_arduino (p : portinfo) : bool :=
  match manufacturer p with
  | Some m =>
      (negb (bool_decide (m = "")) && includes "Arduino" m)
      || (negb (bool_decide (m = "")) && includes "wch.cn" m)
  | None => false
  end.

Definition arduinoPort (ports : list portinfo) : option portinfo :=
  snd <$> list_find (fun p => is_arduino p = true) ports.

(** [setupSerialPort], once [SerialPort.list()] has settled: [None]
    stands for the rejected promise, which is only logged. *)
Definition setupSerialPort (opens : bool) (ports : option (list portinfo))
    (t : transport) : transport :=
  match ports with
  | Some ports =>
      match arduinoPort ports with
      | Some p => connectToPort opens (pi_path p) t
      | None => t
      end
  | None => t
  end.

(** The transport with what was written to the port, in order. *)
Record link := Link {
  transport_of : transport;
  wire : list string
}.

Definition newline : string := String "010" "".

(** The handler of ['serial:send-command'].  [ports] and [opens] are
    what the discovery it may start will find. *)
Definition send_command (opens : bool) (ports : option (list portinfo))
    (command : string) (l : link) : link :=
  if is_open (transport_of l)
  then Link (transport_of l) (wire l ++ [command +:+ newline])
  else Link (setupSerialPort opens ports (transport_of l)) (wire l).

(** A sequence of sends, each with what its discovery would find. *)
Definition send_all (l : link)
    (cs : list (bool * option (list portinfo) * string)) : link :=
  foldl (fun l c => send_command c.1.1 c.1.2 c.2 l) l cs.

(** The lines a sequence of commands asks for. *)
Definition lines_of (cs : list (bool * option (list portinfo) * string))
  : list string :=
  (fun c => c.2 +:+ newline) <$> cs.

(** A manufacturer that names the board. *)
Definition names_board (p : portinfo) : Prop :=
  ∃ m pre post, manufacturer p = Some m ∧
    (m = pre +:+ "Arduino" +:+ post ∨ m = pre +:+ "wch.cn" +:+ post).

End Link.

(* ===================================================================== *)
(** ** renderer.js: the clock, the end of a run, the statistics *)
(* ===================================================================== *)

Module View.
Import JS Main Renderer.

(** *** [formatTime] *)

Fixpoint zeros (k : nat) : string :=
  match k with
  | O => ""
  | S k => String "0" (zeros k)
  end.

(** [s.padStart(n, '0')]. *)
Definition padStart (n : nat) (s : string) : string :=
  zeros (n - String.length s) +:+ s.

(** [Math.floor(a / d)] and [a % d] for a divisor [d > 0]: the
    remainder has the sign of [a]. *)
Definition floor_div (a : num) (d : Z) : num :=
  match a with
  | Fin z => Fin (z `div` d)
  | _ => a
  end.

Definition remainder (a : num) (d : Z) : num :=
  match a with
  | Fin z => Fin (z `rem` d)
  | _ => NaN
  end.

Definition formatTime (ms : num) : string :=
  if strict_eq (VNum ms) (VNum PInf) then "N/A"
  else
    let minutes := floor_div ms 60000 in
    let seconds := floor_div (remainder ms 60000) 1000 in
    let milliseconds := remainder ms 1000 in
    padStart 2 (num_to_string minutes) +:+ ":" +:+
    padStart 2 (num_to_string seconds) +:+ ":" +:+
    padStart 3 (num_to_string milliseconds).

(** *** The numbers of [updateStats] *)

(** [a + b] on Numbers. *)
Definition num_add (a b : num) : num :=
  match a, b with
  | NaN, _ | _, NaN => NaN
  | Fin x, Fin y => Fin (x + y)
  | PInf, NInf | NInf, PInf => NaN
  | PInf, _ | _, PInf => PInf
  | NInf, _ | _, NInf => NInf
  end.

(** [successfulPlayers] and, when there is one, [bestTime]: the fold of
    line 150. *)
Definition successfulPlayers (data : list player) : list player :=
  filter (fun p => strict_eq (VNum (time p)) (VNum PInf) = false) data.

Definition bestTime (data : list player) : option num :=
  match successfulPlayers data with
  | [] => None
  | l => Some (foldl (fun min p => if num_lt (time p) min then time p else min)
                     PInf l)
  end.

(** Lines 161 to 163. *)
Definition totalSuccesses (data : list player) : num :=
  foldl (fun sum p => num_add sum (or_zero (successes p))) (Fin 0) data.

Definition totalDefeats (data : list player) : num :=
  foldl (fun sum p => num_add sum (or_zero (defeats p))) (Fin 0) data.

Definition totalAttempts (data : list player) : num :=
  num_add (totalSuccesses data) (totalDefeats data).

(** *** The end of a run *)

(** The object handed to [electronAPI.saveData]: [currentPlayer] with
    the time and the status [finishGame] has just stored in it. *)
Record message := Message {
  m_name : string;
  m_rollNo : string;
  m_time : num;
  m_status : string
}.

(** [clearInterval(h)]. *)
Definition clearInterval (h : nat) (timers : list nat) : list nat :=
  filter (fun h' => h' ≠ h) timers.

(** [finishGame], up to its first [await]: the guard, the interval
    cleared, the elapsed time, and the message for [saveData] when one
    is sent. *)
Definition finishGame (now : Z) (status : string) (p : page)
  : page * option message :=
  match timerInterval p with
  | Some (S h') =>
      let finalTime :=
        match startTime p with
        | Some start => Fin (now - start)
        | None => NaN
        end in
      (Page None (startTime p) (currentPlayer p) (name_input p) (rollNo_input p)
            (errorMessage p) (playerInfo p) (active p)
            (clearInterval (S h') (timers p)) (next_handle p) (commands p),
       Some (Message (cp_name (currentPlayer p)) (cp_rollNo (currentPlayer p))
                     finalTime status))
  | _ => (p, None)
  end.

(** [switchScreen], on the part of the page that is modelled. *)
Definition switchScreen (screenName : screen) (p : page) : page :=
  Page (timerInterval p) (startTime p) (currentPlayer p) (name_input p)
       (rollNo_input p) (errorMessage p) (playerInfo p) screenName
       (timers p) (next_handle p) (commands p).

(** The user types in the two inputs. *)
Definition type_inputs (name rollNo : string) (p : page) : page :=
  Page (timerInterval p) (startTime p) (currentPlayer p) name rollNo
       (errorMessage p) (playerInfo p) (active p)
       (timers p) (next_handle p) (commands p).

#[global] Instance screen_eq_dec : EqDecision screen.
Proof. solve_decision. Defined.

Section Strings.
Variable trim : string -> string.
Variable toUpperCase : string -> string.

(** The listener of [onSerialData]. *)
Definition onSerialData (now : Z) (data : value) (p : page)
  : page * option message :=
  match data with
  | VStr s =>
      if bool_decide (s = "") then (p, None)
      else
        let trimmedData := trim s in
        if bool_decide (active p = Game) && bool_decide (trimmedData = "FINISH")
        then finishGame now "success" p
        else (p, None)
  | _ => (p, None)
  end.

(** What happens on the page, one event at a time. *)
Inductive event :=
| Typed (name rollNo : string)
| StartClicked (now : Z)
| FinishClicked (now : Z)
| DefeatClicked (now : Z)
| SerialData (now : Z) (data : value)
| ResultsShown
| PlayAgainClicked
| LeaderboardClicked
| BackClicked.

Definition step (s : page * list message) (ev : event) : page * list message :=
  let p := s.1 in
  let sent (r : page * option message) :=
    (r.1, s.2 ++ match r.2 with Some m => [m] | None => [] end) in
  match ev with
  | Typed name rollNo => (type_inputs name rollNo p, s.2)
  | StartClicked now => (handleStartTrial trim toUpperCase now p, s.2)
  | FinishClicked now => sent (finishGame now "success" p)
  | DefeatClicked now => sent (finishGame now "defeat" p)
  | SerialData now data => sent (onSerialData now data p)
  | ResultsShown => (switchScreen Leaderboard p, s.2)
  | PlayAgainClicked => (switchScreen Welcome (type_inputs "" "" p), s.2)
  | LeaderboardClicked => (switchScreen Leaderboard p, s.2)
  | BackClicked => (switchScreen Welcome p, s.2)
  end.

(** The page and the messages sent to [saveData] after the events. *)
Definition session (evs : list event) : page * list message :=
  foldl step (initial, []) evs.

End Strings.

(** The timer state is consistent: a handle held is a handle set, with
    a start instant; handles set are below the next one. *)
Definition consistent (p : page) : Prop :=
  (∀ h, timerInterval p = Some h → h ∈ timers p ∧ is_Some (startTime p)) ∧
  Forall (fun h => (0 < h < next_handle p)%nat) (timers p) ∧
  (0 < next_handle p)%nat.

(** A message the handler of the main process records as a run: a time
    that is an integer, a roll number that is not empty, the status
    success or defeat. *)
Definition valid (m : message) : Prop :=
  (∃ z, m_time m = Fin z) ∧ m_rollNo m ≠ "" ∧
  (m_status m = "success" ∨ m_status m = "defeat").

(** What holds of the page and of the messages sent all along a
    session. *)
Definition invariant (s : page * list message) : Prop :=
  consistent s.1 ∧
  (timed s.1 = true → cp_rollNo (currentPlayer s.1) ≠ "") ∧
  Forall valid s.2 ∧
  (length s.2 + (if timed s.1 then 1 else 0) ≤ length (commands s.1))%nat ∧
  Forall (fun c => c = "START") (commands s.1).

(** [a] does not come after [b] in the ranking. *)
Definition not_after (a b : player) : Prop := after a b = false.

Definition has_time (p : player) : Prop := time p ≠ NaN.

(** The integer a counter holds, and the sum of a list of them. *)
Definition finite_part (n : num) : Z :=
  match n with
  | Fin z => z
  | _ => 0
  end.

Definition sumZ (l : list Z) : Z := foldr Z.add 0 l.

(** Both counters of the player are integers. *)
Definition counted (p : player) : Prop :=
  (∃ a, successes p = Fin a) ∧ (∃ b, defeats p = Fin b).

(** A decimal rendering: 0, or a string that does not start with 0. *)
Definition canonical (s : string) : Prop :=
  s = "0" ∨ ∃ c r, s = String c r ∧ c ≠ "0"%char.

End View.

(* ===================================================================== *)
(** * Properties *)
(* ===================================================================== *)

Module MazeFacts.
Import Maze.

Example trim_start : trim (" START" +:+ String "013" "") = "START".
Proof. reflexivity. Qed.

Example map_range_mid : map_range 512 0 1023 70 110 = 90.
Proof. reflexivity. Qed.

(** START, START again, then the ball falls: one FINISH, and idle. *)
Example run_scenario :
  run [Tick (Some "START") 512 512 30; Tick (Some "START") 512 512 30;
       Tick None 512 512 3; Tick None 512 512 3]
  = Board false 90 95 ["Arduino Ready."; "Game Started!"; "FINISH"].
Proof. reflexivity. Qed.

Lemma finishes_snoc l s :
  finishes (l ++ [s]) = (finishes l + if decide (s = "FINISH") then 1 else 0)%nat.
Proof.
  unfold finishes. rewrite filter_app, length_app. f_equal.
  rewrite filter_cons, filter_nil. by destruct (decide (s = "FINISH")).
Qed.

(** The command half never prints FINISH. *)
Lemma handle_command_finishes r b :
  finishes (out (handle_command r b)) = finishes (out b).
Proof.
  destruct r as [line|]; simpl; [|done].
  destruct (bool_decide _ && _); [|done].
  simpl. rewrite finishes_snoc. rewrite decide_False by done. lia.
Qed.

(** The second half on an active board, by the sample. *)
Lemma play_active t b :
  gameIsActive b = true →
  play t b =
    let b' := write_servos (map_range (joyX t) 0 1023 70 110)
                           (map_range (joyY t) 0 1023 80 110) b in
    if fallen (dist t) then println "FINISH" (set_active false b') else b'.
Proof. intros H. unfold play. by rewrite H. Qed.

Lemma play_idle t b : gameIsActive b = false → play t b = b.
Proof. intros H. unfold play. by rewrite H. Qed.

(** C4: the run state machine of the sketch.  The board starts idle;
    START received while idle makes it active; START received while
    active, and any line that is not START, change nothing; when the
    sample says fallen while the board is active, the board goes back
    to idle and exactly one FINISH line is printed, and FINISH is
    printed in no other pass. *)
Theorem run_state_machine :
  gameIsActive setup = false ∧
  (∀ line b, trim line = "START" → gameIsActive b = false →
     gameIsActive (handle_command (Some line) b) = true) ∧
  (∀ line b, trim line = "START" → gameIsActive b = true →
     handle_command (Some line) b = b) ∧
  (∀ line b, trim line ≠ "START" → handle_command (Some line) b = b) ∧
  (∀ t b, gameIsActive (handle_command (rx t) b) = true →
     fallen (dist t) = true →
     gameIsActive (loop t b) = false ∧
     finishes (out (loop t b)) = S (finishes (out b))) ∧
  (∀ t b, gameIsActive (handle_command (rx t) b) = false ∨ fallen (dist t) = false →
     gameIsActive (loop t b) = gameIsActive (handle_command (rx t) b) ∧
     finishes (out (loop t b)) = finishes (out b)).
Proof.
  split_and!.
  - reflexivity.
  - intros line b Hs Hb. simpl. rewrite Hs, Hb. reflexivity.
  - intros line b Hs Hb. simpl. rewrite Hs, Hb. reflexivity.
  - intros line b Hs. simpl. by rewrite bool_decide_eq_false_2.
  - intros t b Ha Hf. unfold loop. rewrite play_active by done. simpl.
    rewrite Hf. simpl. split; [done|].
    rewrite finishes_snoc, decide_True by done.
    rewrite handle_command_finishes. lia.
  - intros t b H. unfold loop.
    destruct (gameIsActive (handle_command (rx t) b)) eqn:Ha.
    + destruct H as [H|H]; [done|]. rewrite play_active by done. simpl.
      rewrite H. simpl. split; [done|]. apply handle_command_finishes.
    + rewrite play_idle by done. split; [done|]. apply handle_command_finishes.
Qed.

Lemma run_state_machine_witness :
  gameIsActive (handle_command (Some "START") setup) = true ∧
  handle_command (Some "START") (Board true 90 90 []) = Board true 90 90 [] ∧
  handle_command (Some "STOP") setup = setup ∧
  (gameIsActive (loop (Tick None 512 512 3) (Board true 90 90 [])) = false ∧
   finishes (out (loop (Tick None 512 512 3) (Board true 90 90 []))) = 1%nat) ∧
  (gameIsActive (loop (Tick (Some "START") 512 512 30) setup) = true ∧
   finishes (out (loop (Tick (Some "START") 512 512 30) setup)) = 0%nat).
Proof.
  destruct run_state_machine as (_ & H1 & H2 & H3 & H4 & H5).
  split; [|split; [|split; [|split]]].
  - apply H1; reflexivity.
  - apply H2; reflexivity.
  - apply H3. vm_compute. discriminate.
  - apply (H4 (Tick None 512 512 3) (Board true 90 90 [])); reflexivity.
  - destruct (H5 (Tick (Some "START") 512 512 30) setup) as [Ha Hb];
      [right; reflexivity|].
    split; [rewrite Ha | rewrite Hb]; reflexivity.
Defined.

(** *** Over a whole run of the sketch *)

Lemma starts_snoc l s :
  starts (l ++ [s]) = (starts l + if decide (s = "Game Started!") then 1 else 0)%nat.
Proof.
  unfold starts. rewrite filter_app, length_app. f_equal.
  rewrite filter_cons, filter_nil. by destruct (decide (s = "Game Started!")).
Qed.

Lemma balanced_handle_command r b : balanced b → balanced (handle_command r b).
Proof.
  unfold balanced. intros Hb. destruct r as [line|]; simpl; [|done].
  destruct (bool_decide (trim line = "START")); simpl; [|done].
  destruct (gameIsActive b) eqn:Ha; simpl; [by rewrite Ha|].
  rewrite starts_snoc, finishes_snoc, decide_True, decide_False by done. lia.
Qed.

Lemma balanced_play t b : balanced b → balanced (play t b).
Proof.
  unfold balanced, play. intros Hb.
  destruct (gameIsActive b) eqn:Ha; [|by rewrite Ha].
  destruct (fallen (dist t)); simpl; [|by rewrite Ha].
  rewrite starts_snoc, finishes_snoc, decide_False, decide_True by done. lia.
Qed.

(** X27: FINISH is printed once per game started: at any point of a run,
    as many games were started as were finished, plus the one going on. *)
Lemma one_finish_per_game ts : balanced (run ts).
Proof.
  unfold run. induction ts as [|t ts IH] using rev_ind; [reflexivity|].
  rewrite foldl_app. simpl. by apply balanced_play, balanced_handle_command.
Qed.

(** C5, as stated, fails: a sample of 0 is below the threshold and
    does not end the run. *)
Lemma sample_zero_does_not_finish :
  ¬ (∀ t b, gameIsActive b = true → dist t < FALL_THRESHOLD →
       gameIsActive (loop t b) = false ∧ "FINISH" ∈ out (loop t b)).
Proof.
  intros H.
  destruct (H (Tick None 512 512 0) (Board true 90 90 [])) as [Ha _];
    [reflexivity | reflexivity | discriminate Ha].
Qed.

(** C5, amended: while the run is active, one sample [d] with
    [0 < d < FALL_THRESHOLD] ends it and prints FINISH, whatever the
    samples before; a sample outside that range, such as 0, leaves the
    run active and prints nothing. *)
Theorem single_sample_finishes t b :
  gameIsActive (handle_command (rx t) b) = true →
  (0 < dist t < FALL_THRESHOLD →
     gameIsActive (loop t b) = false ∧
     out (loop t b) = (out (handle_command (rx t) b) ++ ["FINISH"])%list) ∧
  (dist t ≤ 0 ∨ FALL_THRESHOLD ≤ dist t →
     gameIsActive (loop t b) = true ∧
     out (loop t b) = out (handle_command (rx t) b)).
Proof.
  intros Ha. unfold loop. rewrite play_active by done. simpl.
  unfold fallen. split; intros Hd.
  - replace (0 <? dist t) with true by (symmetry; apply Z.ltb_lt; lia).
    replace (dist t <? FALL_THRESHOLD) with true by (symmetry; apply Z.ltb_lt; lia).
    done.
  - destruct (0 <? dist t) eqn:H0; destruct (dist t <? FALL_THRESHOLD) eqn:H1;
      simpl; try done.
    apply Z.ltb_lt in H0, H1. lia.
Qed.

Lemma single_sample_finishes_witness :
  (gameIsActive (loop (Tick None 0 1023 4) (Board true 90 90 [])) = false ∧
   out (loop (Tick None 0 1023 4) (Board true 90 90 [])) = ["FINISH"]) ∧
  (gameIsActive (loop (Tick None 0 1023 0) (Board true 90 90 [])) = true ∧
   out (loop (Tick None 0 1023 0) (Board true 90 90 [])) = []).
Proof.
  split.
  - apply (single_sample_finishes (Tick None 0 1023 4) (Board true 90 90 []));
      [reflexivity | unfold FALL_THRESHOLD; simpl; lia].
  - apply (single_sample_finishes (Tick None 0 1023 0) (Board true 90 90 []));
      [reflexivity | left; simpl; lia].
Defined.

End MazeFacts.

Module MainFacts.
Import JS Excel Main.

(** *** Reading back what the handler wrote *)

Lemma headers_lookup :
  let hk := headerKeyMap headers in
  hk !! 1%nat = Some Kname ∧ hk !! 2%nat = Some KrollNo ∧ hk !! 3%nat = Some Ktime ∧
  hk !! 4%nat = Some Ksuccesses ∧ hk !! 5%nat = Some Kdefeats ∧
  hk !! 6%nat = Some KhasImproved.
Proof. vm_compute. by split_and!. Qed.

Lemma read_cells_to_row p :
  read_cells (headerKeyMap headers) (to_row p) =
  Fields (to_cell (name p)) (VStr (rollNo p)) (VNum (time p))
         (VNum (successes p)) (VNum (defeats p)) (VBool (hasImproved p)).
Proof.
  destruct headers_lookup as (H1 & H2 & H3 & H4 & H5 & H6).
  revert H1 H2 H3 H4 H5 H6. generalize (headerKeyMap headers).
  intros hk H1 H2 H3 H4 H5 H6.
  unfold read_cells, eachCell, numbered, to_row. simpl.
  rewrite H1, H2, H3, H4, H5, H6. simpl. reflexivity.
Qed.

Section Runtime.
Variable s2n : string -> num.
Variable ct : string -> option string.

Lemma sanitize_to_row p :
  sanitize s2n (read_cells (headerKeyMap headers) (to_row p)) = reload p.
Proof.
  rewrite read_cells_to_row. unfold sanitize, reload. simpl.
  f_equal.
  - case_bool_decide as Hr; simpl; [by rewrite Hr | done].
  - by destruct (hasImproved p).
Qed.

Lemma hasValues_to_row p : hasValues (to_row p) = true.
Proof. unfold hasValues, to_row. simpl. apply orb_true_r. Qed.

Lemma read_rows_written k data :
  omap (fun nr : nat * row =>
          if (1 <? nr.1)%nat then
            let p := sanitize s2n (read_cells (headerKeyMap headers) nr.2) in
            if truthy (VStr (rollNo p)) then Some p else None
          else None)
       (filter (fun nr : nat * row => hasValues nr.2 = true)
               (imap (fun i r => (S (S (k + i)), r)) (to_row <$> data)))
  = omap (fun p => kept (reload p)) data.
Proof.
  revert k. induction data as [|p data IH]; intros k; [done|].
  rewrite fmap_cons, imap_cons, filter_cons_True by apply hasValues_to_row.
  cbn [omap list_omap fst snd]. rewrite sanitize_to_row.
  replace (1 <? S (S (k + 0)))%nat with true by done.
  unfold kept at 2. cbn zeta.
  erewrite imap_ext; [rewrite (IH (S k))|]; [done|].
  intros i x _. simpl. do 2 f_equal. lia.
Qed.

(** A workbook of the handler reads as its rows, up to [reload],
    without the rows whose roll number is empty. *)
Lemma readData_new_workbook data :
  readData s2n (Xlsx (new_workbook data)) = omap (fun p => kept (reload p)) data.
Proof.
  unfold readData, new_workbook. simpl.
  destruct data as [|p data]; [done|].
  change (rowCount _ <=? 1)%nat with false. cbn match.
  change (values_length _ =? 0)%nat with false. cbn match.
  unfold read_rows, eachRow. rewrite imap_cons.
  rewrite filter_cons_True by done. cbn [omap list_omap fst snd].
  change (1 <? 1)%nat with false. cbn match.
  apply (read_rows_written 0).
Qed.

(** *** What the handler wrote, as the file shows it *)

Lemma written_cell_to_cell v :
  written_cell ct (to_cell v) = to_cell <$> written_cell ct v.
Proof. destruct v as [| | | |s]; simpl; try done. by destruct (ct s). Qed.

Lemma written_row p :
  mapM (written_cell ct) (to_row p) = to_row <$> stored_player ct p.
Proof.
  unfold to_row, stored_player. simpl. rewrite written_cell_to_cell.
  destruct (written_cell ct (name p)) as [n|]; simpl;
    by destruct (ct (rollNo p)) as [r|].
Qed.

(** The file written is the workbook of the players as the file shows
    them, or a file that does not parse. *)
Lemma writeFile_stored data :
  writeFile ct data
  = match mapM (stored_player ct) data with
    | Some d => Xlsx (new_workbook d)
    | None => Garbage
    end.
Proof.
  unfold writeFile, new_workbook.
  assert (mapM (fun p => mapM (written_cell ct) (to_row p)) data
          = fmap to_row <$> mapM (stored_player ct) data) as ->.
  { induction data as [|p data IH]; [done|].
    change (mapM (fun p => mapM (written_cell ct) (to_row p)) (p :: data))
      with (y ← mapM (written_cell ct) (to_row p);
            k ← mapM (fun p => mapM (written_cell ct) (to_row p)) data;
            mret (y :: k)).
    change (mapM (stored_player ct) (p :: data))
      with (y ← stored_player ct p; k ← mapM (stored_player ct) data;
            mret (y :: k)).
    rewrite written_row, IH.
    destruct (stored_player ct p); simpl; [|done].
    by destruct (mapM (stored_player ct) data). }
  by destruct (mapM (stored_player ct) data).
Qed.

Lemma readData_writeFile data :
  readData s2n (writeFile ct data)
  = match mapM (stored_player ct) data with
    | Some d => omap (fun p => kept (reload p)) d
    | None => []
    end.
Proof.
  rewrite writeFile_stored. destruct (mapM (stored_player ct) data); [|done].
  apply readData_new_workbook.
Qed.

Lemma stored_player_plain p : plain_player ct p → stored_player ct p = Some p.
Proof.
  intros [Hn Hr]. unfold stored_player. rewrite Hr.
  destruct p as [n r t w d h]. simpl in *.
  destruct n as [| | | |s]; simpl; try done. by rewrite Hn.
Qed.

Lemma mapM_stored_plain data :
  Forall (plain_player ct) data → mapM (stored_player ct) data = Some data.
Proof.
  induction 1 as [|p data Hp _ IH]; [done|]. simpl.
  by rewrite stored_player_plain, IH.
Qed.

(** Plain players are written as they are. *)
Lemma writeFile_plain data :
  Forall (plain_player ct) data → writeFile ct data = Xlsx (new_workbook data).
Proof. intros H. by rewrite writeFile_stored, mapM_stored_plain. Qed.

Lemma plain_reload p : plain_player ct p → plain_player ct (reload p).
Proof. intros [Hn Hr]. split; [|done]. simpl. by destruct (name p). Qed.

Lemma plain_new_player e : plain_entry ct e → plain_player ct (new_player e).
Proof. by intros (? & _ & ?). Qed.

Lemma plain_record_run e p :
  plain_entry ct e → plain_player ct p → plain_player ct (record_run e p).
Proof.
  intros (Hn & _ & _) [Hp Hr]. unfold record_run. by repeat case_match.
Qed.

Lemma plain_update data e :
  Forall (plain_player ct) data → plain_entry ct e →
  Forall (plain_player ct) (update data e).
Proof.
  intros H He. assert (Forall (plain_player ct) (clear_flag <$> data)) as Hc.
  { apply Forall_fmap. eapply Forall_impl; [done|]. by intros p Hp. }
  unfold update. destruct (findIndex _ data).
  - apply Forall_alter; [done|]. intros x Hx. by apply plain_record_run.
  - apply Forall_app. split; [done|]. by apply Forall_singleton, plain_new_player.
Qed.

Lemma plain_kept_reload data :
  Forall (plain_player ct) data →
  Forall (plain_player ct) (omap (fun p => kept (reload p)) data).
Proof.
  intros H. apply Forall_forall. intros p (q & Hq & Hk)%list_elem_of_omap.
  unfold kept in Hk. case_match; simplify_eq.
  apply plain_reload. by eapply Forall_forall in H.
Qed.







(** *** Rows of any sheet *)

Lemma read_cells_rollNo_from_cell (hk : gmap nat key) (l : list (nat * value)) o :
  let o' := foldl (fun o cv =>
                     match hk !! cv.1 with
                     | Some k => set_field k cv.2 o
                     | None => o
                     end) o l in
  f_rollNo o' = f_rollNo o ∨ ∃ cv, cv ∈ l ∧ f_rollNo o' = cv.2.
Proof.
  revert o. induction l as [|cv l IH]; intros o; simpl; [by left|].
  destruct (IH (match hk !! cv.1 with
                | Some k => set_field k cv.2 o
                | None => o
                end)) as [H|(cv' & Hin & H)].
  - simpl in H. rewrite H.
    destruct (hk !! cv.1) as [k|]; [|by left].
    destruct k; simpl; try (by left).
    right. exists cv. split; [apply list_elem_of_here|done].
  - right. exists cv'. split; [by apply list_elem_of_further|done].
Qed.

Lemma rollNo_truthy_hasValues hk r :
  truthy (f_rollNo (read_cells hk r)) = true → hasValues r = true.
Proof.
  intros Ht. unfold read_cells, eachCell in Ht.
  destruct (read_cells_rollNo_from_cell hk (numbered r) no_fields) as [H|(cv & Hin & H)];
    simpl in H; rewrite H in Ht; [done|].
  unfold numbered in Hin. apply elem_of_lookup_imap in Hin as (i & v & -> & Hv).
  simpl in Ht. unfold hasValues. apply existsb_exists. exists v. split.
  - apply list_elem_of_In. by eapply list_elem_of_lookup_2.
  - by destruct v.
Qed.

Lemma length_pretty_N_go x s : (String.length s ≤ String.length (pretty_N_go x s))%nat.
Proof.
  revert s. induction (N.lt_wf_0 x) as [x _ IH]; intros s.
  assert (x = 0 ∨ 0 < x)%N as [->|?] by lia; [by rewrite pretty_N_go_0|].
  rewrite pretty_N_go_step by done.
  etrans; [|by eapply IH, N.div_lt]. simpl. lia.
Qed.

Lemma pretty_pos_nonempty (x : positive) : pretty x ≠ "".
Proof.
  unfold pretty, pretty_positive, pretty, pretty_N. rewrite decide_False by done.
  rewrite pretty_N_go_step by lia. intros H.
  pose proof (length_pretty_N_go (N.pos x `div` 10)
                (String (pretty_N_char (N.pos x `mod` 10)) "")) as Hl.
  rewrite H in Hl. simpl in Hl. lia.
Qed.

Lemma pretty_Z_nonempty (z : Z) : pretty z ≠ "".
Proof.
  destruct z as [|x|x]; unfold pretty, pretty_Z; [done| |done].
  apply pretty_pos_nonempty.
Qed.

(** A truthy value never renders as the empty string. *)
Lemma truthy_ToString v : truthy v = true → ToString v ≠ "".
Proof.
  destruct v as [| |[]|[z| | |]|s]; simpl; try done.
  - intros _. apply pretty_Z_nonempty.
  - by intros ?%negb_true_iff%bool_decide_eq_false.
Qed.

(** *** Finding a player *)

(** The two shapes of [update], by what [findIndex] found. *)
Lemma update_cases data e :
  let id := ToString (e_rollNo e) in
  (∃ i q, list_find (fun p => rollNo p = id) data = Some (i, q) ∧
          data !! i = Some q ∧ rollNo q = id ∧
          target id data = i ∧ lookup_player id data = Some q ∧
          update data e = alter (record_run e) i (clear_flag <$> data)) ∨
  (list_find (fun p => rollNo p = id) data = None ∧
   target id data = length data ∧ lookup_player id data = None ∧
   update data e = (clear_flag <$> data) ++ [new_player e]).
Proof.
  intros id. unfold update, target, lookup_player, findIndex. fold id.
  destruct (list_find (fun p => rollNo p = id) data) as [[i q]|] eqn:Hf; simpl.
  - left. exists i, q. apply list_find_Some in Hf as Hq.
    destruct Hq as (? & ? & _). by split_and!.
  - right. by split_and!.
Qed.

Lemma rollNo_record_run e p : rollNo (record_run e p) = rollNo p.
Proof. unfold record_run. by repeat case_match. Qed.


Lemma list_find_id_fmap (g : player → player) id l :
  (∀ p, rollNo (g p) = rollNo p) →
  list_find (fun p => rollNo p = id) (g <$> l)
  = prod_map (fun i => i) g <$> list_find (fun p => rollNo p = id) l.
Proof.
  intros Hg. induction l as [|x l IH]; [done|]. csimpl.
  rewrite Hg. destruct (decide (rollNo x = id)); [done|].
  rewrite IH. by destruct (list_find _ l) as [[??]|].
Qed.

Lemma list_find_id_alter (g : player → player) id i l :
  (∀ p, rollNo (g p) = rollNo p) →
  list_find (fun p => rollNo p = id) (alter g i l)
  = (fun jx : nat * player => (jx.1, if decide (jx.1 = i) then g jx.2 else jx.2))
      <$> list_find (fun p => rollNo p = id) l.
Proof.
  intros Hg. revert i. induction l as [|x l IH]; intros [|i]; csimpl; try done.
  - rewrite Hg. destruct (decide (rollNo x = id)); [done|].
    destruct (list_find _ l) as [[??]|]; done.
  - destruct (decide (rollNo x = id)); [done|].
    rewrite IH. destruct (list_find _ l) as [[j y]|]; simpl; [|done].
    do 2 f_equal. by repeat case_decide; simplify_eq.
Qed.

Lemma findIndex_fmap (g : player → player) id l :
  (∀ p, rollNo (g p) = rollNo p) → findIndex id (g <$> l) = findIndex id l.
Proof.
  intros Hg. unfold findIndex. rewrite list_find_id_fmap by done.
  by destruct (list_find _ l) as [[??]|].
Qed.

Lemma lookup_player_fmap (g : player → player) id l :
  (∀ p, rollNo (g p) = rollNo p) →
  lookup_player id (g <$> l) = g <$> lookup_player id l.
Proof.
  intros Hg. unfold lookup_player. rewrite list_find_id_fmap by done.
  by destruct (list_find _ l) as [[??]|].
Qed.

(** After [update], the player of the run is found at [target], with
    the record the handler built. *)
Lemma list_find_update data e :
  list_find (fun p => rollNo p = ToString (e_rollNo e)) (update data e)
  = Some (target (ToString (e_rollNo e)) data,
          match lookup_player (ToString (e_rollNo e)) data with
          | Some q => record_run e (clear_flag q)
          | None => new_player e
          end).
Proof.
  pose proof (update_cases data e) as H. cbv zeta in H.
  destruct H as [(i & q & Hf & Hi & Hq & -> & -> & ->)|(Hf & -> & -> & ->)].
  - rewrite list_find_id_alter by apply rollNo_record_run.
    rewrite list_find_id_fmap, Hf by done. simpl. by rewrite decide_True.
  - rewrite list_find_app_r by (by rewrite list_find_id_fmap, Hf).
    csimpl. rewrite decide_True by done. simpl. by rewrite length_fmap.
Qed.

(** *** A call after another *)

(** [readData] returns no player with an empty roll number. *)
Lemma readData_rollNo f p : p ∈ readData s2n f → rollNo p ≠ "".
Proof.
  unfold readData. repeat (case_match; try by intros ?%elem_of_nil).
  unfold read_rows. intros (nr & _ & Hnr)%list_elem_of_omap.
  repeat case_match; simplify_eq.
  match goal with
  | Ht : truthy (VStr _) = true |- _ =>
      by apply negb_true_iff, bool_decide_eq_false in Ht
  end.
Qed.

Lemma update_rollNo data e :
  Forall (fun p => rollNo p ≠ "") data → ToString (e_rollNo e) ≠ "" →
  Forall (fun p => rollNo p ≠ "") (update data e).
Proof.
  intros H Hid. assert (Forall (fun p => rollNo p ≠ "") (clear_flag <$> data)) as Hc.
  { apply Forall_fmap. eapply Forall_impl; [done|]. by intros p Hp. }
  unfold update. destruct (findIndex _ data).
  - apply Forall_alter; [done|]. intros x _. by rewrite rollNo_record_run.
  - apply Forall_app. split; [done|]. by apply Forall_singleton.
Qed.

Lemma omap_kept_reload l :
  Forall (fun p => rollNo p ≠ "") l → omap (fun p => kept (reload p)) l = reload <$> l.
Proof.
  induction 1 as [|p l Hp _ IH]; [done|]. csimpl. rewrite IH.
  unfold kept. simpl. by rewrite bool_decide_eq_false_2.
Qed.

(** The next call loads what this one wrote, when the workbook keeps
    the strings as written. *)
Lemma readData_apply f e :
  ToString (e_rollNo e) ≠ "" →
  Forall (plain_player ct) (readData s2n f) → plain_entry ct e →
  readData s2n (apply s2n ct f e) = reload <$> update (readData s2n f) e.
Proof.
  intros Hid Hf He. unfold apply, save_data. cbn [snd].
  rewrite writeFile_plain by (by apply plain_update).
  rewrite readData_new_workbook.
  apply omap_kept_reload, update_rollNo; [|done].
  apply Forall_forall. intros p. apply readData_rollNo.
Qed.

Lemma plain_apply f e :
  Forall (plain_player ct) (readData s2n f) → plain_entry ct e →
  Forall (plain_player ct) (readData s2n (apply s2n ct f e)).
Proof.
  intros Hf He. unfold apply, save_data. cbn [snd].
  rewrite writeFile_plain by (by apply plain_update).
  rewrite readData_new_workbook. by apply plain_kept_reload, plain_update.
Qed.

Lemma apply_all_snoc f es e :
  apply_all s2n ct f (es ++ [e]) = apply s2n ct (apply_all s2n ct f es) e.
Proof. unfold apply_all. by rewrite foldl_app. Qed.

Lemma plain_apply_all f es :
  Forall (plain_player ct) (readData s2n f) → Forall (plain_entry ct) es →
  Forall (plain_player ct) (readData s2n (apply_all s2n ct f es)).
Proof.
  intros Hf. induction es as [|e es IH] using rev_ind; intros Hes; [done|].
  apply Forall_app in Hes as [Hes He%Forall_inv].
  rewrite apply_all_snoc. apply plain_apply; [by apply IH|done].
Qed.

Lemma plain_fresh : Forall (plain_player ct) (readData s2n fresh).
Proof. constructor. Qed.

Lemma findIndex_apply f e :
  ToString (e_rollNo e) ≠ "" →
  Forall (plain_player ct) (readData s2n f) → plain_entry ct e →
  findIndex (ToString (e_rollNo e)) (readData s2n (apply s2n ct f e))
  = Some (target (ToString (e_rollNo e)) (readData s2n f)).
Proof.
  intros Hid Hf He. rewrite readData_apply by done.
  rewrite findIndex_fmap by done. unfold findIndex.
  by rewrite list_find_update.
Qed.

Lemma lookup_player_apply f e :
  ToString (e_rollNo e) ≠ "" →
  Forall (plain_player ct) (readData s2n f) → plain_entry ct e →
  lookup_player (ToString (e_rollNo e)) (readData s2n (apply s2n ct f e))
  = Some (reload match lookup_player (ToString (e_rollNo e)) (readData s2n f) with
                 | Some q => record_run e (clear_flag q)
                 | None => new_player e
                 end).
Proof.
  intros Hid Hf He. rewrite readData_apply by done.
  rewrite lookup_player_fmap by done. unfold lookup_player at 1.
  by rewrite list_find_update.
Qed.

(** C10, amended: two runs whose roll numbers render as the same
    non-empty string, a string the workbook keeps as written, are
    recorded on the same player: the second call finds, in what it
    loads, the record the first call wrote to, and updates it in place;
    and no player that [readData] returns has an empty roll number.
    The roll numbers are strings or Numbers [String] renders in
    digits, and the strings already in the store are kept as written
    too. *)
Theorem same_rendering_same_record f e1 e2 :
  ToString (e_rollNo e1) = ToString (e_rollNo e2) →
  ToString (e_rollNo e1) ≠ "" →
  Forall (plain_player ct) (readData s2n f) →
  plain_entry ct e1 → exact_rendering (e_rollNo e2) →
  let id := ToString (e_rollNo e1) in
  let data0 := readData s2n f in
  let data1 := readData s2n (apply s2n ct f e1) in
  findIndex (ToString (e_rollNo e2)) data1 = Some (target id data0) ∧
  update data1 e2 = alter (record_run e2) (target id data0) (clear_flag <$> data1) ∧
  (∀ g p, p ∈ readData s2n g → rollNo p ≠ "").
Proof.
  intros Heq Hid Hf He1 _ id data0 data1.
  assert (findIndex (ToString (e_rollNo e2)) data1 = Some (target id data0)) as H.
  { rewrite <- Heq. by apply findIndex_apply. }
  split_and!; [done| |apply readData_rollNo].
  unfold update. by rewrite H.
Qed.

(** *** The best time over a sequence of successes *)

Lemma time_reload_truthy p : truthy (VNum (time p)) = true → time (reload p) = time p.
Proof. intros H. unfold reload. cbn [time]. by rewrite H. Qed.

Lemma time_reload_nonzero p z : time p = Fin z → z ≠ 0 → time (reload p) = Fin z.
Proof.
  intros Hp Hz. unfold reload. simpl. rewrite Hp. simpl.
  by rewrite (proj2 (Z.eqb_neq z 0)).
Qed.

(** One success on a record: the best time is left or lowered. *)
Lemma best_time_success f e b :
  ToString (e_rollNo e) ≠ "" →
  Forall (plain_player ct) (readData s2n f) → plain_entry ct e →
  is_success e = true → e_time e ≠ 0 → truthy (VNum b) = true →
  best (ToString (e_rollNo e)) (readData s2n f) = Some b →
  best (ToString (e_rollNo e)) (readData s2n (apply s2n ct f e))
  = Some (if num_lt (Fin (e_time e)) b then Fin (e_time e) else b).
Proof.
  unfold best. intros Hid Hf He Hs Ht Hb Hq. rewrite lookup_player_apply by done.
  destruct (lookup_player _ (readData s2n f)) as [q|]; [|done].
  injection Hq as <-. cbn [fmap option_fmap option_map]. f_equal.
  unfold record_run. rewrite Hs. change (time (clear_flag q)) with (time q).
  destruct (num_lt (Fin (e_time e)) (time q)) eqn:Hlt.
  - by apply time_reload_nonzero.
  - by rewrite time_reload_truthy.
Qed.

Lemma best_time_step f e m :
  ToString (e_rollNo e) ≠ "" →
  Forall (plain_player ct) (readData s2n f) → plain_entry ct e →
  is_success e = true → e_time e ≠ 0 → m ≠ 0 →
  best (ToString (e_rollNo e)) (readData s2n f) = Some (Fin m) →
  best (ToString (e_rollNo e)) (readData s2n (apply s2n ct f e))
  = Some (Fin (Z.min m (e_time e))).
Proof.
  intros Hid Hf He Hs Ht Hm Hq.
  rewrite (best_time_success f e (Fin m)); try done.
  - simpl. destruct (Z.ltb_spec (e_time e) m); do 2 f_equal; lia.
  - simpl. by rewrite (proj2 (Z.eqb_neq m 0)).
Qed.

Lemma best_time_steps f id m es :
  id ≠ "" → m ≠ 0 →
  Forall (plain_player ct) (readData s2n f) →
  Forall (fun e => success_of id e ∧ e_time e ≠ 0 ∧ plain_entry ct e) es →
  best id (readData s2n f) = Some (Fin m) →
  best id (readData s2n (apply_all s2n ct f es))
  = Some (Fin (finite_min m (e_time <$> es))).
Proof.
  intros Hid Hm Hf Hes. revert f m Hm Hf.
  induction Hes as [|e es ((He & Hs) & Ht & Hp) _ IH]; intros f m Hm Hf Hq; [done|].
  unfold apply_all, finite_min. csimpl. apply IH; [lia|by apply plain_apply|].
  rewrite <- He. apply best_time_step; by rewrite ?He.
Qed.

Lemma finite_min_snoc x l y : finite_min x (l ++ [y]) = Z.min (finite_min x l) y.
Proof. unfold finite_min. by rewrite foldl_app. Qed.

(** C1, amended: for a player whose roll number is a string the
    workbook keeps as written, other than the empty string, in a store
    whose strings are kept as written, and for successful runs of that
    player, none of 0 ms, their names kept as written, each call
    completing its write before the next is made: when the player is
    not in the store yet, the best time on record after the runs is
    the least elapsed time of the runs so far, and one more such run
    leaves it or lowers it; and on any such store where the player has
    a best time on record, a number other than 0, one such run leaves
    it or lowers it to the time of the run. *)
Theorem best_time_is_min f id e es :
  id ≠ "" →
  Forall (plain_player ct) (readData s2n f) →
  Forall (fun e' => success_of id e' ∧ e_time e' ≠ 0 ∧ plain_entry ct e') (e :: es) →
  (lookup_player id (readData s2n f) = None →
   best id (readData s2n (apply_all s2n ct f (e :: es)))
   = Some (Fin (finite_min (e_time e) (e_time <$> es))) ∧
   (∀ e', success_of id e' → e_time e' ≠ 0 → plain_entry ct e' →
      best id (readData s2n (apply_all s2n ct f ((e :: es) ++ [e'])))
      = Some (Fin (Z.min (finite_min (e_time e) (e_time <$> es)) (e_time e'))))) ∧
  (∀ b, best id (readData s2n f) = Some b → truthy (VNum b) = true →
     best id (readData s2n (apply s2n ct f e))
     = Some (if num_lt (Fin (e_time e)) b then Fin (e_time e) else b)).
Proof.
  intros Hid Hf Hes. split.
  - intros Hnone.
    assert (∀ l, Forall (fun e' => success_of id e' ∧ e_time e' ≠ 0 ∧
                                   plain_entry ct e') (e :: l) →
                 best id (readData s2n (apply_all s2n ct f (e :: l)))
                 = Some (Fin (finite_min (e_time e) (e_time <$> l)))) as Hmin.
    { intros l Hl. apply Forall_cons in Hl as [((He & Hs) & Ht & Hp) Hl].
      change (apply_all s2n ct f (e :: l))
        with (apply_all s2n ct (apply s2n ct f e) l).
      apply best_time_steps; [done..|by apply plain_apply|done|].
      subst id. unfold best.
      rewrite lookup_player_apply by done. rewrite Hnone.
      cbn [fmap option_fmap option_map]. f_equal.
      apply time_reload_nonzero; [|done]. unfold new_player. simpl. by rewrite Hs. }
    split; [by apply Hmin|].
    intros e' He' Ht' Hp'. rewrite <- app_comm_cons, Hmin.
    + rewrite fmap_app. change (e_time <$> [e']) with [e_time e'].
      by rewrite finite_min_snoc.
    + rewrite app_comm_cons. apply Forall_app. split; [done|].
      by apply Forall_singleton.
  - intros b Hb Htruthy.
    apply Forall_inv in Hes as ((He & Hs) & Ht & Hp). subst id.
    by apply best_time_success.
Qed.

(** On a run of 0 ms the minimum is not kept.  The first call writes
    the best time 0; the second call loads it as [Infinity], takes 5000
    for an improvement and writes 5000, where the least of the two is
    0: the best time written went up. *)
Lemma zero_time_run_is_forgotten :
  let e0 := Entry (VStr "AMY") (VStr "p1") 0 (VStr "success") in
  let e1 := Entry (VStr "AMY") (VStr "p1") 5000 (VStr "success") in
  plain_entry ct e0 →
  update (readData s2n fresh) e0
  = [Player (VStr "AMY") "p1" (Fin 0) (Fin 1) (Fin 0) true] ∧
  readData s2n (apply s2n ct fresh e0)
  = [Player (VStr "AMY") "p1" PInf (Fin 1) (Fin 0) true] ∧
  update (readData s2n (apply s2n ct fresh e0)) e1
  = [Player (VStr "AMY") "p1" (Fin 5000) (Fin 2) (Fin 0) true] ∧
  finite_min 0 [5000] = 0.
Proof.
  intros e0 e1 He. rewrite readData_apply by (done || apply plain_fresh).
  by split_and!.
Qed.

(** *** Two calls in flight *)

Lemma lookup_player_update_mono id data e :
  is_Some (lookup_player id data) → is_Some (lookup_player id (update data e)).
Proof.
  unfold lookup_player, update. intros H.
  assert (is_Some (list_find (fun p => rollNo p = id) (clear_flag <$> data))) as Hc.
  { rewrite list_find_id_fmap by done.
    destruct (list_find _ data); [by eexists | by destruct H]. }
  destruct (findIndex _ data).
  - rewrite list_find_id_alter by apply rollNo_record_run.
    destruct Hc as [x ->]. by eexists.
  - destruct Hc as [[i x] Hx]. by erewrite list_find_app_l.
Qed.

Lemma lookup_player_apply_mono id f e :
  ToString (e_rollNo e) ≠ "" →
  Forall (plain_player ct) (readData s2n f) → plain_entry ct e →
  is_Some (lookup_player id (readData s2n f)) →
  is_Some (lookup_player id (readData s2n (apply s2n ct f e))).
Proof.
  intros Hid Hf He H. rewrite readData_apply, lookup_player_fmap by done.
  destruct (lookup_player_update_mono id _ e H) as [x ->]. by eexists.
Qed.

(** C3, amended: the handler does not serialize its calls.  Of two
    calls, the second can load before the first has written; when
    it does, the write of the second replaces that of the first and
    the file is what the second call alone would have left.  When
    the second call starts after the first has completed its write,
    it loads what the first wrote, and the players of both runs are
    in the store, when their roll numbers do not render as the empty
    string and the workbook keeps the strings of the two runs and of
    the store as written. *)
Theorem calls_are_not_serialized f e1 e2 :
  let s := (f, [Invoked e1; Invoked e2]) in
  overlapping (exec s2n ct s [0; 1]%nat) = 2%nat ∧
  exec s2n ct s [0; 1; 0; 1]%nat = (apply s2n ct f e2, [Returned; Returned]) ∧
  exec s2n ct s [0; 0; 1; 1]%nat
  = (apply s2n ct (apply s2n ct f e1) e2, [Returned; Returned]) ∧
  (ToString (e_rollNo e1) ≠ "" → ToString (e_rollNo e2) ≠ "" →
   Forall (plain_player ct) (readData s2n f) →
   plain_entry ct e1 → plain_entry ct e2 →
   let data := readData s2n (apply s2n ct (apply s2n ct f e1) e2) in
   is_Some (lookup_player (ToString (e_rollNo e1)) data) ∧
   is_Some (lookup_player (ToString (e_rollNo e2)) data)).
Proof.
  intros s. split_and!; try reflexivity.
  intros H1 H2 Hf Hp1 Hp2 data. unfold data.
  pose proof (plain_apply f e1 Hf Hp1) as Hf1. split.
  - apply lookup_player_apply_mono; [done..|].
    rewrite lookup_player_apply by done. by eexists.
  - rewrite lookup_player_apply by done. by eexists.
Qed.

(** *** One call of the handler *)

Lemma save_data_writes f e :
  save_data s2n ct None f e = (Success, writeFile ct (update (readData s2n f) e)).
Proof. reflexivity. Qed.

(** The flag, against what the call loaded.  After one call of the
    handler, a record written with [hasImproved = true] can only be the
    one of the player of the run, so at most one record carries the
    flag, and every other record is written with the flag false; the
    record of the player carries it exactly when the run was a success
    that was below the best time the call loaded for the player, or the
    player had no record; or, the records loaded being sound, had a
    record that counts no success. *)
Lemma one_improved_flag f e :
  let id := ToString (e_rollNo e) in
  let data := readData s2n f in
  let data' := update data e in
  save_data s2n ct None f e = (Success, writeFile ct data') ∧
  (∀ i p, data' !! i = Some p → hasImproved p = true → i = target id data) ∧
  (∃ p, data' !! target id data = Some p ∧ rollNo p = id ∧
        (hasImproved p = true ↔
         is_success e = true ∧
         (lowers e data = true ∨ lookup_player id data = None)) ∧
        (Forall sound data →
         (hasImproved p = true ↔
          is_success e = true ∧
          (lowers e data = true ∨ first_success e data = true)))).
Proof.
  intros id data data'. split; [reflexivity|].
  pose proof (update_cases data e) as H. cbv zeta in H.
  unfold data', lowers, first_success. subst id.
  destruct H as [(i & q & _ & Hi & Hq & -> & -> & ->)|(_ & -> & -> & ->)].
  - split.
    + intros j p Hj Hp. destruct (decide (j = i)) as [->|Hne]; [done|].
      rewrite list_lookup_alter_ne, list_lookup_fmap in Hj by done.
      destruct (data !! j); simplify_eq/=.
    + exists (record_run e (clear_flag q)).
      assert (hasImproved (record_run e (clear_flag q)) = true ↔
              is_success e = true ∧ num_lt (Fin (e_time e)) (time q) = true) as Hflag.
      { unfold record_run. change (time (clear_flag q)) with (time q).
        destruct (is_success e); [|by split; [|intros [? _]]].
        destruct (num_lt (Fin (e_time e)) (time q)); cbn [hasImproved]; [done|].
        by split; [|intros [_ ?]]. }
      split_and!.
      * by rewrite list_lookup_alter_eq, list_lookup_fmap, Hi.
      * by rewrite rollNo_record_run.
      * rewrite Hflag. split; [intros [? ?]; auto|].
        by intros [? [?|?]].
      * intros Hsound. eapply Forall_lookup_1 in Hsound as [_ Hz]; [|done].
        rewrite Hflag. split; [intros [? ?]; auto|].
        intros [? [?|Hfirst%bool_decide_eq_true]]; [done|].
        split; [done|]. by rewrite (Hz Hfirst).
  - split.
    + intros j p Hj Hp.
      destruct (decide (j < length data)%nat) as [Hlt|Hge].
      * rewrite lookup_app_l, list_lookup_fmap in Hj by (by rewrite length_fmap).
        destruct (data !! j); simplify_eq/=.
      * apply lookup_lt_Some in Hj. rewrite length_app, length_fmap in Hj.
        simpl in Hj. lia.
    + exists (new_player e). split_and!.
      * rewrite lookup_app_r by (by rewrite length_fmap).
        by rewrite length_fmap, Nat.sub_diag.
      * done.
      * simpl. split; [|by intros [? _]]. intros Hs. split; [done|by right].
      * intros _. simpl. split; [|by intros [? _]]. intros Hs. split; [done|by right].
Qed.

(** Soundness is an invariant of the store. *)
Lemma sound_reload p : sound p → sound (reload p).
Proof.
  intros [(n & Hn & ?) Hz]. split; simpl; rewrite Hn in *; simpl; [by eauto|].
  intros Hs. by rewrite (Hz Hs).
Qed.

Lemma sound_record_run e p : sound p → sound (record_run e p).
Proof.
  intros [(n & Hn & ?) Hz]. unfold record_run.
  destruct (is_success e).
  - destruct (num_lt _ _);
      (split; simpl; rewrite Hn; simpl;
       [exists (n + 1); split; [done|lia] | intros [=]; lia]).
  - split; simpl; [by exists n | done].
Qed.

Lemma sound_new_player e : sound (new_player e).
Proof.
  unfold new_player. split; simpl; destruct (is_success e); try done.
  - exists 1. by split.
  - exists 0. by split.
Qed.

Lemma sound_update data e : Forall sound data → Forall sound (update data e).
Proof.
  intros H. assert (Forall sound (clear_flag <$> data)) as Hc.
  { apply Forall_fmap. eapply Forall_impl; [done|]. by intros p Hp. }
  unfold update. destruct (findIndex _ data).
  - apply Forall_alter; [done|]. intros x _. apply sound_record_run.
  - apply Forall_app. split; [done|]. apply Forall_singleton, sound_new_player.
Qed.

Lemma sound_stored p q : stored_player ct p = Some q → sound p → sound q.
Proof.
  unfold stored_player. intros H Hp.
  destruct (written_cell ct (name p)); simplify_eq/=.
  destruct (ct (rollNo p)); simplify_eq/=. done.
Qed.

Lemma sound_readData_apply f e :
  Forall sound (readData s2n f) → Forall sound (readData s2n (apply s2n ct f e)).
Proof.
  intros H. unfold apply, save_data. cbn [snd]. rewrite readData_writeFile.
  destruct (mapM _ _) as [d|] eqn:Hd; [|constructor].
  apply Forall_forall. intros p (q & Hq & Hk)%list_elem_of_omap.
  unfold kept in Hk. case_match; simplify_eq.
  apply sound_reload. apply mapM_Some_1 in Hd.
  apply list_elem_of_lookup in Hq as [i Hi].
  eapply Forall2_lookup_r in Hd as (q0 & Hq0 & Hst); [|done].
  eapply sound_stored; [done|].
  eapply Forall_lookup_1; [by apply sound_update|done].
Qed.

(** Every store the handler builds from the file of
    [initializeLeaderboard] holds sound records. *)
Lemma sound_apply_all es : Forall sound (readData s2n (apply_all s2n ct fresh es)).
Proof.
  induction es as [|e es IH] using rev_ind; [by constructor|].
  rewrite apply_all_snoc. by apply sound_readData_apply.
Qed.

End Runtime.

(** *** Examples, with the text of a cell as ExcelJS reads it *)

Example xlsx_text_examples :
  xlsx_text "p1" = Some "p1" ∧ xlsx_text "AMY" = Some "AMY" ∧
  xlsx_text "" = Some "" ∧
  xlsx_text "_x0041_" = Some "A" ∧ xlsx_text "p_x0031_" = Some "p1" ∧
  xlsx_text "_x005F_x0041_" = Some "_x0041_" ∧
  xlsx_text "_x004g_" = Some "_x004g_" ∧ xlsx_text "_x00e9_" = Some "_x00e9_" ∧
  xlsx_text U_FFFE = None ∧ xlsx_text ("p" +:+ U_FFFE +:+ "1") = None.
Proof. by vm_compute. Qed.



Lemma best_time_is_min_witness :
  let run t := Entry (VStr "AMY") (VStr "p1") t (VStr "success") in
  best "p1" (readData decimal
               (apply_all decimal xlsx_text fresh [run 5000; run 7000; run 4000]))
  = Some (Fin 4000).
Proof.
  intros run.
  destruct (best_time_is_min decimal xlsx_text fresh "p1" (run 5000)
              [run 7000; run 4000]) as [H _].
  - done.
  - constructor.
  - apply (bool_decide_unpack _). vm_compute. exact I.
  - destruct H as [H _]; [reflexivity|exact H].
Defined.

(** C1, as stated, fails for a roll number that renders as the empty
    string: the record of the first run is dropped when the second call
    loads, and the store never holds the least time of the two. *)
Lemma best_time_is_not_always_min :
  ¬ (∀ f id e es,
       lookup_player id (readData decimal f) = None →
       Forall (fun e' => success_of id e' ∧ 0 ≤ e_time e') (e :: es) →
       best id (readData decimal (apply_all decimal xlsx_text f (e :: es)))
       = Some (Fin (finite_min (e_time e) (e_time <$> es)))).
Proof.
  intros H.
  specialize (H fresh "" (Entry (VStr "AMY") (VStr "") 4000 (VStr "success"))
                [Entry (VStr "AMY") (VStr "") 5000 (VStr "success")] eq_refl).
  assert (best "" (readData decimal
                     (apply_all decimal xlsx_text fresh
                        [Entry (VStr "AMY") (VStr "") 4000 (VStr "success");
                         Entry (VStr "AMY") (VStr "") 5000 (VStr "success")]))
          = None) as Hn by (by vm_compute).
  rewrite Hn in H. discriminate H.
  repeat constructor; done.
Qed.

(** A roll number with an escape is stored under another: the record
    of [_x0041_] is read back as the record of [A], the next run of
    [_x0041_] finds no record and makes a second one, and the store
    holds two records for [A] and none for [_x0041_]. *)
Example escaped_roll_number_is_stored_under_another :
  let run t := Entry (VStr "AMY") (VStr "_x0041_") t (VStr "success") in
  readData decimal (apply_all decimal xlsx_text fresh [run 5000; run 4000])
  = [Player (VStr "AMY") "A" (Fin 5000) (Fin 1) (Fin 0) false;
     Player (VStr "AMY") "A" (Fin 4000) (Fin 1) (Fin 0) true].
Proof. by vm_compute. Qed.

Lemma same_rendering_same_record_witness :
  let e1 := Entry (VStr "AMY") (VNum (Fin 42)) 5000 (VStr "success") in
  let e2 := Entry (VStr "AMY") (VStr "42") 7000 (VStr "defeat") in
  findIndex "42" (readData decimal (apply decimal xlsx_text fresh e1)) = Some 0%nat ∧
  update (readData decimal (apply decimal xlsx_text fresh e1)) e2
  = [Player (VStr "AMY") "42" (Fin 5000) (Fin 1) (Fin 1) false].
Proof.
  intros e1 e2.
  destruct (same_rendering_same_record decimal xlsx_text fresh e1 e2)
    as (H1 & H2 & _).
  - reflexivity.
  - vm_compute; discriminate.
  - constructor.
  - apply (bool_decide_unpack _). vm_compute. exact I.
  - exact I.
  - split; [exact H1|]. rewrite H2. by vm_compute.
Defined.

(** C10, as stated, fails for the empty rendering: the record of the
    first run is dropped when the second call loads, so the second run
    is not recorded on it. *)
Lemma empty_rendering_not_folded :
  ¬ (∀ f e1 e2,
       ToString (e_rollNo e1) = ToString (e_rollNo e2) →
       findIndex (ToString (e_rollNo e2))
                 (readData decimal (apply decimal xlsx_text f e1))
       = Some (target (ToString (e_rollNo e1)) (readData decimal f))).
Proof.
  intros H.
  specialize (H fresh (Entry (VStr "AMY") (VStr "") 5000 (VStr "success"))
                (Entry (VStr "AMY") (VStr "") 7000 (VStr "success")) eq_refl).
  vm_compute in H. discriminate H.
Qed.

(** AMY and BO finish close together: the call for BO loads before the
    call for AMY has written, and the store ends without AMY. *)
Example lost_update :
  let amy := Entry (VStr "AMY") (VStr "p1") 5000 (VStr "success") in
  let bo := Entry (VStr "BO") (VStr "p2") 4000 (VStr "success") in
  readData decimal
    (exec decimal xlsx_text (fresh, [Invoked amy; Invoked bo]) [0; 1; 0; 1]%nat).1
  = [Player (VStr "BO") "p2" (Fin 4000) (Fin 1) (Fin 0) true].
Proof. by vm_compute. Qed.

Lemma calls_are_not_serialized_witness :
  let amy := Entry (VStr "AMY") (VStr "p1") 5000 (VStr "success") in
  let bo := Entry (VStr "BO") (VStr "p2") 4000 (VStr "success") in
  let data := readData decimal
                (apply decimal xlsx_text (apply decimal xlsx_text fresh amy) bo) in
  is_Some (lookup_player "p1" data) ∧ is_Some (lookup_player "p2" data).
Proof.
  intros amy bo data.
  destruct (calls_are_not_serialized decimal xlsx_text fresh amy bo)
    as (_ & _ & _ & H).
  apply H.
  - vm_compute; discriminate.
  - vm_compute; discriminate.
  - constructor.
  - apply (bool_decide_unpack _). vm_compute. exact I.
  - apply (bool_decide_unpack _). vm_compute. exact I.
Defined.

(** C3, as stated, fails: nothing keeps the second call from loading
    while the first is between its load and its write, and the run of
    the first call is then missing from the file. *)
Lemma second_call_loads_before_first_writes :
  ¬ (∀ f e1 e2 schedule,
       (overlapping (exec decimal xlsx_text (f, [Invoked e1; Invoked e2]) schedule)
        ≤ 1)%nat).
Proof.
  intros H.
  specialize (H fresh (Entry (VStr "AMY") (VStr "p1") 5000 (VStr "success"))
                (Entry (VStr "BO") (VStr "p2") 4000 (VStr "success"))
                [0; 1]%nat).
  vm_compute in H. lia.
Qed.

(** C2: the flag after a run of 0 ms.  AMY succeeds in 0 ms, then in
    5000 ms.  The first call writes the best time 0; the second loads
    it as [Infinity] (line 226), finds 5000 below it and writes the
    row AMY, p1, 5000, 2, 0 with [hasImproved = true]: the flag of a
    run that was neither the first success of the player nor below the
    best time on record. *)
Lemma improved_flag_after_zero_time_run :
  let e0 := Entry (VStr "AMY") (VStr "p1") 0 (VStr "success") in
  let e1 := Entry (VStr "AMY") (VStr "p1") 5000 (VStr "success") in
  save_data decimal xlsx_text None fresh e0
  = (Success, Xlsx [("Leaderboard",
                     [headers;
                      [VStr "AMY"; VStr "p1"; VNum (Fin 0); VNum (Fin 1);
                       VNum (Fin 0); VBool true]])]) ∧
  save_data decimal xlsx_text None (apply decimal xlsx_text fresh e0) e1
  = (Success, Xlsx [("Leaderboard",
                     [headers;
                      [VStr "AMY"; VStr "p1"; VNum (Fin 5000); VNum (Fin 2);
                       VNum (Fin 0); VBool true]])]) ∧
  num_lt (Fin 5000) (Fin 0) = false.
Proof. by vm_compute. Qed.

Lemma one_improved_flag_example :
  let amy := Entry (VStr "AMY") (VStr "p1") 5000 (VStr "success") in
  let bo := Entry (VStr "BO") (VStr "p2") 9000 (VStr "defeat") in
  let f := apply decimal xlsx_text (apply decimal xlsx_text fresh amy) bo in
  let e := Entry (VStr "BO") (VStr "p2") 7000 (VStr "success") in
  let data' := update (readData decimal f) e in
  data' = [Player (VStr "AMY") "p1" (Fin 5000) (Fin 1) (Fin 0) false;
           Player (VStr "BO") "p2" (Fin 7000) (Fin 1) (Fin 1) true] ∧
  (∀ i p, data' !! i = Some p → hasImproved p = true → i = 1%nat) ∧
  (∃ p, data' !! 1%nat = Some p ∧
        (hasImproved p = true ↔
         is_success e = true ∧
         (lowers e (readData decimal f) = true ∨
          first_success e (readData decimal f) = true))).
Proof.
  intros amy bo f e data'. split; [by vm_compute|].
  destruct (one_improved_flag decimal xlsx_text f e) as (_ & H & p & Hp & _ & _ & Hs).
  split; [exact H|]. exists p. split; [exact Hp|].
  apply Hs. apply (sound_apply_all decimal xlsx_text [amy; bo]).
Defined.

End MainFacts.

Module RankingFacts.
Import JS Excel Main Renderer MainFacts.

Lemma elem_of_insert_by_time a l x :
  x ∈ insert_by_time a l ↔ x = a ∨ x ∈ l.
Proof.
  induction l as [|b l IH]; simpl.
  - rewrite list_elem_of_singleton, elem_of_nil. tauto.
  - destruct (after a b); rewrite !elem_of_cons; [rewrite IH|]; tauto.
Qed.

Lemma elem_of_sort_by_time l x : x ∈ sort_by_time l ↔ x ∈ l.
Proof.
  induction l as [|a l IH]; simpl; [done|].
  rewrite elem_of_insert_by_time, elem_of_cons, IH. tauto.
Qed.

(** Nobody without a best time is ranked. *)
Lemma sortedData_ranked data p : p ∈ sortedData data → p ∈ data ∧ time p ≠ PInf.
Proof.
  unfold sortedData. rewrite elem_of_sort_by_time, list_elem_of_filter.
  intros [H ?]. split; [done|]. intros Ht. rewrite Ht in H. done.
Qed.

Lemma top10_sortedData data p : p ∈ top10 data → p ∈ sortedData data.
Proof. unfold top10. apply subseteq_take. Qed.

Section Runtime.
Variable s2n : string -> num.

(** C9: a stored row with a roll number whose BestTime cell is empty
    or holds the number 0 is returned by [readData] with
    [time = Infinity], and so is left out of the ranked view
    ([sortedData] and the ten rows shown). *)
Theorem zero_best_time_reads_infinity wb sh n r :
  getWorksheet "Leaderboard" wb = Some sh →
  values_length (getRow 1 sh) ≠ 0%nat →
  sh !! S n = Some r →
  let o := read_cells (headerKeyMap (getRow 1 sh)) r in
  truthy (f_rollNo o) = true →
  f_time o = VUndef ∨ f_time o = VNull ∨ f_time o = VNum (Fin 0) →
  let p := sanitize s2n o in
  (p ∈ readData s2n (Xlsx wb)) ∧
  time p = PInf ∧
  (p ∉ sortedData (readData s2n (Xlsx wb))) ∧
  (p ∉ top10 (readData s2n (Xlsx wb))).
Proof.
  intros Hsh Hhdr Hr o Hroll Htime p.
  assert (time p = PInf) as Ht.
  { unfold p, sanitize. simpl. by destruct Htime as [->|[->| ->]]. }
  assert (p ∉ sortedData (readData s2n (Xlsx wb))) as Hs.
  { intros [_ ?]%sortedData_ranked. done. }
  split_and!; [|done|done|by intros ?%top10_sortedData].
  unfold readData. simpl. rewrite Hsh.
  apply lookup_lt_Some in Hr as Hlen.
  replace (rowCount sh <=? 1)%nat with false
    by (symmetry; apply Nat.leb_gt; unfold rowCount; lia).
  replace (values_length (getRow 1 sh) =? 0)%nat with false
    by (symmetry; by apply Nat.eqb_neq).
  unfold read_rows. apply list_elem_of_omap. exists (S (S n), r). split.
  - unfold eachRow. apply list_elem_of_filter. split.
    + simpl. by eapply rollNo_truthy_hasValues.
    + apply elem_of_lookup_imap. by exists (S n), r.
  - simpl. fold o. fold p.
    replace (negb (bool_decide (rollNo p = ""))) with true; [done|].
    symmetry. apply negb_true_iff, bool_decide_eq_false.
    unfold p, sanitize. simpl. rewrite Hroll. by apply truthy_ToString.
Qed.

End Runtime.

Lemma zero_best_time_reads_infinity_witness :
  let row0 := [VStr "AMY"; VStr "p1"; VNum (Fin 0); VNum (Fin 1); VNum (Fin 0); VBool true] in
  let wb := [("Leaderboard", [headers; row0])] in
  let p := Player (VStr "AMY") "p1" PInf (Fin 1) (Fin 0) true in
  (p ∈ readData decimal (Xlsx wb)) ∧ time p = PInf ∧
  (p ∉ sortedData (readData decimal (Xlsx wb))) ∧
  (p ∉ top10 (readData decimal (Xlsx wb))).
Proof.
  intros row0 wb p.
  apply (zero_best_time_reads_infinity decimal wb [headers; row0] 0 row0);
    [reflexivity | vm_compute; lia | reflexivity | reflexivity
    | right; right; reflexivity].
Defined.

End RankingFacts.

Module SerialFacts.
Import Serial.

Lemma is_open_close p t : is_open (close p t) = false.
Proof. unfold close, notify. by destruct (mainWindow t). Qed.

(** Closing twice is closing once: the second close finds the port
    closed. *)
Lemma close_if_open_idempotent t : close_if_open (close_if_open t) = close_if_open t.
Proof.
  unfold close_if_open. destruct (port t) as [p|] eqn:Hp; [|by rewrite Hp].
  destruct (isOpen p) eqn:Ho; [|by rewrite Hp, Ho].
  unfold close, notify. simpl. by destruct (mainWindow t).
Qed.

(** C7, amended: a connect closes the port that is open before it
    opens the new one, also when the open port is at the target path:
    that port is then closed and a new object opened in its place.  A
    connect with no open port only opens.  The guarded close changes
    nothing when no port is open. *)
Theorem connect_closes_then_opens opens portPath t :
  (∀ p, port t = Some p → isOpen p = true →
     connectToPort opens portPath t = createNewPort opens portPath (close p t) ∧
     events (connectToPort opens portPath t)
     = events t ++ [EvClose (path p) (ident p);
                    (if opens then EvOpen else EvError) portPath (S (objects t))] ∧
     port (connectToPort opens portPath t)
     = Some (SerialPort portPath opens (S (objects t))) ∧
     connectToPort opens portPath t ≠ t) ∧
  (is_open t = false →
     connectToPort opens portPath t = createNewPort opens portPath t ∧
     close_if_open t = t).
Proof.
  split.
  - intros p Hp Ho. unfold connectToPort. rewrite Hp, Ho.
    assert (events (createNewPort opens portPath (close p t))
            = events t ++ [EvClose (path p) (ident p);
                           (if opens then EvOpen else EvError) portPath (S (objects t))])
      as He.
    { unfold createNewPort, close, notify.
      destruct opens, (mainWindow t); simpl; by rewrite <- app_assoc. }
    split_and!; [done|done| |].
    + unfold createNewPort, close, notify. by destruct opens, (mainWindow t).
    + intros Heq. rewrite Heq in He.
      apply (f_equal length) in He. rewrite length_app in He. simpl in He. lia.
  - unfold is_open, connectToPort, close_if_open. intros Ho.
    destruct (port t) as [p|]; [|done]. by rewrite Ho.
Qed.

Lemma connect_closes_then_opens_witness :
  let t := connectToPort true "COM3" start in
  events (connectToPort true "COM3" t)
  = [EvOpen "COM3" 1; EvClose "COM3" 1; EvOpen "COM3" 2] ∧
  connectToPort true "COM3" t ≠ t ∧
  close_if_open start = start.
Proof.
  intros t.
  destruct (connect_closes_then_opens true "COM3" t) as [H _].
  destruct (H (SerialPort "COM3" true 1)) as (_ & He & _ & Hne); [reflexivity..|].
  destruct (connect_closes_then_opens true "COM3" start) as [_ H0].
  destruct H0 as [_ Hc]; [reflexivity|].
  split_and!; [exact He | exact Hne | exact Hc].
Defined.

(** C7, as stated, fails: a connect to the path that is already open
    is not a no-op. *)
Lemma reconnect_same_path_is_not_noop :
  ¬ (∀ opens portPath t p,
       port t = Some p → isOpen p = true → path p = portPath →
       connectToPort opens portPath t = t).
Proof.
  intros H.
  specialize (H true "COM3" (connectToPort true "COM3" start)
                (SerialPort "COM3" true 1) eq_refl eq_refl eq_refl).
  discriminate H.
Qed.

End SerialFacts.

Module RendererFacts.
Import Renderer.

Section Strings.
Variable trim : string -> string.
Variable toUpperCase : string -> string.

Local Abbreviation begin := (handleStartTrial trim toUpperCase).

(** C6, amended: [handleStartTrial] does not look at whether a run is
    being timed.  With a name and a roll number that are not empty
    once trimmed, it records the new start instant, sends START and
    sets a new interval, whatever [timerInterval] held: the
    interval of a run that was being timed stays set.  It does none
    of this only when the name or the roll number is empty. *)
Theorem begin_is_not_guarded now p :
  (trim (name_input p) ≠ "" → trim (rollNo_input p) ≠ "" →
     startTime (begin now p) = Some now ∧
     commands (begin now p) = commands p ++ ["START"] ∧
     timerInterval (begin now p) = Some (next_handle p) ∧
     timers (begin now p) = next_handle p :: timers p) ∧
  (trim (name_input p) = "" ∨ trim (rollNo_input p) = "" →
     startTime (begin now p) = startTime p ∧
     commands (begin now p) = commands p ∧
     timerInterval (begin now p) = timerInterval p ∧
     timers (begin now p) = timers p).
Proof.
  unfold handleStartTrial. split.
  - intros Hn Hr. by rewrite !bool_decide_eq_false_2.
  - intros [H|H]; rewrite H; simpl; [done|].
    by rewrite orb_true_r.
Qed.

End Strings.

Example amy_playing_reached :
  handleStartTrial JS.trim_ascii JS.toUpperCase_ascii 1000
    (Page None None (Current "" "") "Amy" "p1" "" "" Welcome [] 1 [])
  = amy_playing.
Proof. reflexivity. Qed.

Lemma begin_is_not_guarded_witness :
  let p' := handleStartTrial JS.trim_ascii JS.toUpperCase_ascii 3000 amy_playing in
  (startTime p' = Some 3000 ∧ commands p' = ["START"; "START"] ∧
   timerInterval p' = Some 2%nat ∧ timers p' = [2; 1]%nat) ∧
  timers (handleStartTrial JS.trim_ascii JS.toUpperCase_ascii 3000 initial) = [].
Proof.
  intros p'. split.
  - apply (begin_is_not_guarded JS.trim_ascii JS.toUpperCase_ascii 3000 amy_playing);
      vm_compute; discriminate.
  - apply (begin_is_not_guarded JS.trim_ascii JS.toUpperCase_ascii 3000 initial).
    left. reflexivity.
Defined.

(** C6, as stated, fails: a second begin while a run is timed is not
    rejected. *)
Lemma second_begin_is_not_rejected :
  ¬ (∀ now p, timed p = true →
       let p' := handleStartTrial JS.trim_ascii JS.toUpperCase_ascii now p in
       startTime p' = startTime p ∧ commands p' = commands p ∧ timers p' = timers p).
Proof.
  intros H. destruct (H 3000 amy_playing eq_refl) as (Hs & _). discriminate Hs.
Qed.

End RendererFacts.

Module MazeRunFacts.
Import Maze MazeRuns.

Lemma map_range_bounds x lo hi :
  0 ≤ x ≤ 1023 → lo ≤ hi → lo ≤ map_range x 0 1023 lo hi ≤ hi.
Proof.
  intros Hx Hlo. unfold map_range. rewrite Z.sub_0_r.
  change (1023 - 0) with 1023.
  rewrite Z.quot_div_nonneg by nia.
  assert (0 ≤ (x * (hi - lo)) `div` 1023) by (apply Z.div_pos; nia).
  assert ((x * (hi - lo)) `div` 1023 ≤ hi - lo).
  { apply Z.div_le_upper_bound; nia. }
  lia.
Qed.

Lemma map_range_mono x y lo hi :
  0 ≤ x → x ≤ y → lo ≤ hi → map_range x 0 1023 lo hi ≤ map_range y 0 1023 lo hi.
Proof.
  intros Hx Hxy Hlo. unfold map_range. rewrite !Z.sub_0_r.
  change (1023 - 0) with 1023.
  rewrite !Z.quot_div_nonneg by nia.
  apply Z.add_le_mono_r, Z.div_le_mono; nia.
Qed.

Lemma loop_servos t b :
  analog t →
  70 ≤ servoX b ≤ 110 ∧ 80 ≤ servoY b ≤ 110 →
  70 ≤ servoX (loop t b) ≤ 110 ∧ 80 ≤ servoY (loop t b) ≤ 110.
Proof.
  intros [Hx Hy] Hb. unfold loop, play.
  assert (servoX (handle_command (rx t) b) = servoX b ∧
          servoY (handle_command (rx t) b) = servoY b) as [Hsx Hsy].
  { destruct (rx t) as [line|]; simpl; [|done]. by destruct (_ && _). }
  destruct (gameIsActive (handle_command (rx t) b)); [|by rewrite Hsx, Hsy].
  pose proof (map_range_bounds (joyX t) 70 110 Hx ltac:(lia)).
  pose proof (map_range_bounds (joyY t) 80 110 Hy ltac:(lia)).
  by destruct (fallen (dist t)).
Qed.

(** X1: whatever the commands and the samples, as long as the joystick
    readings are in the range 0..1023 of the converter, the positions
    written to the two servos stay within the tilt limits of the sketch,
    70..110 on X and 80..110 on Y, all along a run. *)
Theorem servos_within_limits ts :
  Forall analog ts →
  70 ≤ servoX (run ts) ≤ 110 ∧ 80 ≤ servoY (run ts) ≤ 110.
Proof.
  unfold run. induction ts as [|t ts IH] using rev_ind; intros Hts.
  - simpl. lia.
  - apply Forall_app in Hts as [Hts Ht%Forall_inv].
    rewrite foldl_app. cbn [foldl]. apply loop_servos; [exact Ht|]. by apply IH.
Qed.

Lemma servos_within_limits_witness :
  let ts := [Tick (Some "START") 0 1023 30; Tick None 1023 0 30] in
  70 ≤ servoX (run ts) ≤ 110 ∧ 80 ≤ servoY (run ts) ≤ 110.
Proof.
  intros ts. apply (servos_within_limits ts).
  repeat constructor; simpl; lia.
Defined.

(** X2: the tilt follows the stick: a larger reading never gives a
    smaller angle, on either axis, and the two ends of the stick give
    the two ends of the tilt range. *)
Theorem tilt_follows_stick x y :
  0 ≤ x → x ≤ y →
  map_range x 0 1023 70 110 ≤ map_range y 0 1023 70 110 ∧
  map_range x 0 1023 80 110 ≤ map_range y 0 1023 80 110 ∧
  map_range 0 0 1023 70 110 = 70 ∧ map_range 1023 0 1023 70 110 = 110 ∧
  map_range 0 0 1023 80 110 = 80 ∧ map_range 1023 0 1023 80 110 = 110.
Proof.
  intros Hx Hxy. split_and!; try reflexivity; apply map_range_mono; lia.
Qed.

Lemma tilt_follows_stick_witness :
  map_range 300 0 1023 70 110 ≤ map_range 700 0 1023 70 110.
Proof. apply (tilt_follows_stick 300 700); lia. Defined.

Lemma loop_no_start t b : gameIsActive b = false → no_start t → loop t b = b.
Proof.
  intros Hb Hn. unfold loop.
  assert (handle_command (rx t) b = b) as ->.
  { destruct (rx t) as [line|] eqn:Hrx; simpl; [|done].
    by rewrite bool_decide_eq_false_2 by (by apply Hn). }
  unfold play. by rewrite Hb.
Qed.

(** X3: until a START arrives the sketch does nothing: whatever the
    joystick, the distance samples and the other lines received, the
    servos stay centred, the board stays idle and nothing is printed
    after the greeting. *)
Theorem nothing_happens_before_start ts :
  Forall no_start ts → run ts = setup.
Proof.
  unfold run. induction ts as [|t ts IH] using rev_ind; intros Hts; [done|].
  apply Forall_app in Hts as [Hts Ht%Forall_inv].
  rewrite foldl_app. cbn [foldl]. rewrite IH by done. by apply loop_no_start.
Qed.

Lemma nothing_happens_before_start_witness :
  run [Tick None 0 1023 2; Tick (Some "STOP") 512 512 3; Tick (Some "start") 5 5 1] = setup.
Proof.
  apply nothing_happens_before_start.
  repeat constructor; intros line [= <-]; vm_compute; discriminate.
Defined.

End MazeRunFacts.

Module StoreFacts.
Import JS Excel Main Store MainFacts.

Section Runtime.
Variable s2n : string -> num.
Variable ct : string -> option string.

(** *** Start-up *)

(** X4: start-up neither loses nor alters a leaderboard: after
    [initializeLeaderboard] the file exists and [readData] returns what
    it returned before (nothing, when the file had to be created), and a
    second start-up changes nothing. *)
Theorem start_up_keeps_the_store f :
  existsSync (initializeLeaderboard f) = true ∧
  readData s2n (initializeLeaderboard f) = readData s2n f ∧
  initializeLeaderboard (initializeLeaderboard f) = initializeLeaderboard f.
Proof. by destruct f. Qed.

(** *** Round trips *)

Lemma reload_storable p : storable p → reload p = p.
Proof.
  intros (Hn & _ & Ht & Hs & Hd). destruct p as [n r t s d h]. simpl in *.
  unfold reload. simpl. rewrite Ht. f_equal.
  - by destruct n.
  - by destruct s.
  - by destruct d.
Qed.

(** X5: what the handler writes reads back as written, when the
    workbook keeps the strings: for players with a name and a roll
    number that are read back as written (no escape [_xHHHH_], no
    character outside XML), the roll number not empty, a best time
    other than 0 and NaN and counters other than NaN, [readData] of the
    file written from an array is that array, in the same order. *)
Theorem written_players_read_back data :
  Forall storable data → Forall (plain_player ct) data →
  readData s2n (writeFile ct data) = data.
Proof.
  intros Hd Hp. rewrite writeFile_plain by done. clear Hp.
  rewrite readData_new_workbook.
  induction Hd as [|p data Hp _ IH]; [done|]. csimpl. rewrite IH.
  rewrite reload_storable by done. destruct Hp as (_ & Hr & _).
  unfold kept. simpl. by rewrite bool_decide_eq_false_2.
Qed.

Lemma reload_reload p : reload (reload p) = reload p.
Proof.
  destruct p as [n r t s d h]. unfold reload. simpl. f_equal.
  - by destruct n.
  - by destruct t as [z| | |]; simpl; [destruct (z =? 0) eqn:Hz; simpl; rewrite ?Hz|..].
  - by destruct s.
  - by destruct d.
Qed.

Lemma kept_reload_twice (data : list player) :
  omap (fun p => kept (reload p)) (omap (fun p => kept (reload p)) data)
  = omap (fun p => kept (reload p)) data.
Proof.
  induction data as [|p data IH]; [done|]. csimpl.
  destruct (kept (reload p)) as [q|] eqn:Hk; csimpl; [|apply IH].
  unfold kept in Hk. destruct (truthy (VStr (rollNo (reload p)))) eqn:Ht; simplify_eq.
  rewrite reload_reload. unfold kept at 1. rewrite Ht. csimpl. by rewrite IH.
Qed.

(** X6: one save settles the numbers and the empty cells of the store:
    when what is loaded from a file the handler wrote holds only
    strings the workbook keeps as written, writing it again and loading
    it again gives the same array; whatever [readData] changed on the
    first load (an undefined name, a best time of 0, a row without roll
    number) it changes no more. *)
Theorem second_save_changes_nothing data :
  let loaded := readData s2n (writeFile ct data) in
  Forall (plain_player ct) loaded →
  readData s2n (writeFile ct loaded) = loaded.
Proof.
  intros loaded Hp. rewrite (writeFile_plain ct loaded) by done.
  rewrite readData_new_workbook. unfold loaded. rewrite readData_writeFile.
  destruct (mapM (stored_player ct) data) as [d|]; [|done].
  apply kept_reload_twice.
Qed.

(** *** Columns *)

Lemma columnDef_header k : columnDef (VStr (header_of k)) = Some k.
Proof. by destruct k. Qed.

Lemma columnDef_Some v k : columnDef v = Some k → v = VStr (header_of k).
Proof.
  unfold columnDef.
  destruct (list_find _ excelColumns) as [[i c]|] eqn:Hf; [|done].
  intros [= <-]. apply list_find_Some in Hf as (Hc & Heq & _).
  assert (v = VStr c.1) as ->.
  { destruct v as [| |b|n|s]; try done; [by destruct n|].
    simpl in Heq. apply bool_decide_eq_true in Heq. congruence. }
  apply list_elem_of_lookup_2 in Hc.
  unfold excelColumns in Hc.
  repeat (apply elem_of_cons in Hc as [->|Hc]; [done|]). by apply elem_of_nil in Hc.
Qed.

(** The key of a column is the one of its header cell. *)
Lemma headerKeyMap_lookup (hdr : list value) c :
  headerKeyMap hdr !! c =
  match c with
  | O => None
  | S i => hdr !! i ≫= columnDef
  end.
Proof.
  unfold headerKeyMap, eachCell, numbered. revert c.
  induction hdr as [|v hdr IH] using rev_ind; intros c.
  - simpl. rewrite lookup_empty. by destruct c.
  - rewrite imap_app, filter_app, foldl_app. simpl. rewrite Nat.add_0_r.
    set (m := foldl _ ∅ (filter _ (imap _ hdr))) in *.
    assert (match (if decide (is_null v = false)
                   then [(S (length hdr), v)] else []) with
            | [] => m
            | cv :: _ => match columnDef cv.2 with
                         | Some k => <[cv.1 := k]> m
                         | None => m
                         end
            end !! c
            = match c with
              | O => None
              | S i => (hdr ++ [v]) !! i ≫= columnDef
              end) as Hgoal.
    { destruct c as [|i]; [|destruct (decide (i = length hdr)) as [->|Hne]].
      - destruct (decide _); simpl; [destruct (columnDef v)|];
          rewrite ?lookup_insert_ne by done; apply (IH 0%nat).
      - rewrite list_lookup_middle by done. simpl.
        destruct (decide _) as [Hv|Hv]; simpl.
        + destruct (columnDef v) as [k|] eqn:Hk; [by rewrite lookup_insert_eq|].
          by rewrite (IH (S (length hdr))), lookup_ge_None_2 by lia.
        + rewrite (IH (S (length hdr))), lookup_ge_None_2 by lia.
          by destruct v.
      - assert ((hdr ++ [v]) !! i = hdr !! i) as ->.
        { destruct (decide (i < length hdr)%nat); [by rewrite lookup_app_l|].
          rewrite !lookup_ge_None_2; [done|lia|rewrite length_app; simpl; lia]. }
        destruct (decide _); simpl; [destruct (columnDef v)|];
          rewrite ?lookup_insert_ne by lia; apply (IH (S i)). }
    rewrite <- Hgoal. rewrite filter_cons, filter_nil.
    by destruct (decide _).
Qed.

Lemma get_raw_set_field k k' v o :
  get_raw k (set_field k' v o) = if decide (k = k') then v else get_raw k o.
Proof. by destruct k, k'. Qed.

(** The field [k] of the object read off a row, when exactly the column
    [S i] has the key [k]. *)
Lemma read_cells_get (hk : gmap nat key) (r : list value) k i :
  (∀ c, hk !! c = Some k ↔ c = S i) →
  get_raw k (read_cells hk r) = default VUndef (r !! i).
Proof.
  intros Hk. unfold read_cells, eachCell, numbered.
  induction r as [|v r IH] using rev_ind; [by destruct k|].
  rewrite imap_app, foldl_app. simpl. rewrite Nat.add_0_r.
  destruct (hk !! S (length r)) as [k'|] eqn:Hc.
  - rewrite get_raw_set_field. destruct (decide (k = k')) as [<-|Hne].
    + apply Hk in Hc as [= <-]. by rewrite list_lookup_middle.
    + rewrite IH. destruct (decide (i = length r)) as [->|Hi].
      { destruct Hne. assert (hk !! S (length r) = Some k) as Hs by (by apply Hk).
        congruence. }
      destruct (decide (i < length r)%nat); [by rewrite lookup_app_l|].
      rewrite !lookup_ge_None_2; [done|rewrite length_app; simpl; lia|lia].
  - rewrite IH. destruct (decide (i = length r)) as [->|Hi].
    { assert (hk !! S (length r) = Some k) as Hs by (by apply Hk). congruence. }
    destruct (decide (i < length r)%nat); [by rewrite lookup_app_l|].
    rewrite !lookup_ge_None_2; [done|rewrite length_app; simpl; lia|lia].
Qed.

(** X7: the columns are found by their header, not by their position:
    when one column of the first row, and only one, holds the header of
    a key, the field of that key in the object read off a row is the
    cell of the row in that column, wherever the column is and whatever
    the other columns hold, and it is undefined when the row stops
    before that column. *)
Theorem columns_are_found_by_header (hdr r : list value) k i :
  hdr !! i = Some (VStr (header_of k)) →
  (∀ j, hdr !! j = Some (VStr (header_of k)) → j = i) →
  get_raw k (read_cells (headerKeyMap hdr) r) = default VUndef (r !! i).
Proof.
  intros Hi Huniq. apply read_cells_get. intros c.
  rewrite headerKeyMap_lookup. destruct c as [|j]; [done|]. split.
  - destruct (hdr !! j) as [v|] eqn:Hj; [|done]. simpl.
    intros ->%columnDef_Some. f_equal. by apply Huniq.
  - intros [= ->]. rewrite Hi. simpl. apply columnDef_header.
Qed.

(** *** What a call leaves alone *)

(** X8: a call touches one record: the array written has one element
    more when the player is new and as many otherwise, and every element
    but the one of the player is the element loaded, with its flag
    cleared: no other best time, counter or name moves. *)
Theorem call_touches_one_record data e :
  let id := ToString (e_rollNo e) in
  length (update data e)
  = (if findIndex id data is Some _ then length data else S (length data)) ∧
  (∀ j, j ≠ target id data → update data e !! j = clear_flag <$> data !! j).
Proof.
  intros id. pose proof (update_cases data e) as H. cbv zeta in H.
  subst id. unfold findIndex.
  destruct H as [(i & q & -> & Hi & Hq & -> & _ & ->)|(-> & -> & _ & ->)]; simpl.
  - split; [by rewrite length_alter, length_fmap|].
    intros j Hj. by rewrite list_lookup_alter_ne, list_lookup_fmap.
  - split; [rewrite length_app, length_fmap; simpl; lia|].
    intros j Hj. destruct (decide (j < length data)%nat).
    + by rewrite lookup_app_l, list_lookup_fmap by (by rewrite length_fmap).
    + rewrite !lookup_ge_None_2; [done|lia|].
      rewrite length_app, length_fmap. simpl. lia.
Qed.

(** *** One record per roll number *)

Lemma rollNo_alter (g : player → player) (i : nat) (l : list player) :
  (∀ p, rollNo (g p) = rollNo p) → rollNo <$> alter g i l = rollNo <$> l.
Proof.
  intros Hg. apply list_eq. intros j. rewrite !list_lookup_fmap.
  destruct (decide (j = i)) as [->|Hne].
  - rewrite list_lookup_alter_eq. destruct (l !! i); simpl; [by rewrite Hg|done].
  - by rewrite list_lookup_alter_ne.
Qed.

Lemma NoDup_update data e :
  NoDup (rollNo <$> data) → NoDup (rollNo <$> update data e).
Proof.
  intros Hd. pose proof (update_cases data e) as H. cbv zeta in H.
  assert (rollNo <$> (clear_flag <$> data) = rollNo <$> data) as Hc.
  { rewrite <- list_fmap_compose. by apply list_fmap_ext. }
  destruct H as [(i & q & _ & _ & _ & _ & _ & ->)|(Hf & _ & _ & ->)].
  - by rewrite rollNo_alter, Hc by apply rollNo_record_run.
  - rewrite fmap_app, Hc. apply NoDup_app. split_and!; [done| |apply NoDup_singleton].
    intros r Hr [= ->]%list_elem_of_singleton.
    apply list_elem_of_fmap in Hr as (p & Hp & Hin).
    apply list_find_None in Hf. eapply Forall_forall in Hf; [|done]. by destruct Hf.
Qed.

Lemma NoDup_loaded (l : list player) :
  NoDup (rollNo <$> l) → NoDup (rollNo <$> omap (fun p => kept (reload p)) l).
Proof.
  induction l as [|p l IH]; [done|]. csimpl. intros [Hp Hl]%NoDup_cons.
  unfold kept at 1. destruct (truthy _); csimpl; [|by apply IH].
  apply NoDup_cons. split; [|by apply IH].
  intros (q & Hq & (q' & Hin & Hk)%list_elem_of_omap)%list_elem_of_fmap.
  apply Hp. apply list_elem_of_fmap. exists q'. split; [|done].
  unfold kept in Hk. case_match; simplify_eq. done.
Qed.

(** X9: the handler never makes a second record for a roll number the
    workbook keeps as written: when the names and roll numbers of the
    runs and of the store are read back as written, and the roll
    numbers loaded from the store are pairwise distinct, they still are
    after any sequence of calls, each completing its write before the
    next; so they always are, for such runs, in a store that started as
    the file of [initializeLeaderboard]. *)
Theorem one_record_per_roll_number f es :
  Forall (plain_entry ct) es →
  (Forall (plain_player ct) (readData s2n f) →
   NoDup (rollNo <$> readData s2n f) →
   NoDup (rollNo <$> readData s2n (apply_all s2n ct f es))) ∧
  NoDup (rollNo <$> readData s2n (apply_all s2n ct fresh es)).
Proof.
  intros Hes.
  assert (∀ g, Forall (plain_player ct) (readData s2n g) →
               NoDup (rollNo <$> readData s2n g) →
               NoDup (rollNo <$> readData s2n (apply_all s2n ct g es))) as H.
  { intros g Hp Hg. induction es as [|e es IH] using rev_ind; [done|].
    apply Forall_app in Hes as [Hes He%Forall_inv].
    rewrite apply_all_snoc. unfold apply at 1, save_data. cbn [snd].
    rewrite writeFile_plain
      by (apply plain_update; [by apply plain_apply_all|done]).
    rewrite readData_new_workbook.
    by apply NoDup_loaded, NoDup_update, IH. }
  split; [apply H|]. apply H; constructor.
Qed.

(** *** The record of a player among the runs of all *)

Lemma lookup_player_update_other id data e :
  ToString (e_rollNo e) ≠ id →
  lookup_player id (update data e) = clear_flag <$> lookup_player id data.
Proof.
  intros Hne. pose proof (update_cases data e) as H. cbv zeta in H.
  unfold lookup_player.
  destruct H as [(i & q & _ & Hi & Hq & _ & _ & ->)|(_ & _ & _ & ->)].
  - rewrite list_find_id_alter by apply rollNo_record_run.
    rewrite list_find_id_fmap by done.
    destruct (list_find _ data) as [[j x]|] eqn:Hf; [|done]. simpl.
    apply list_find_Some in Hf as (Hj & Hx & _).
    rewrite decide_False; [done|]. intros ->. congruence.
  - destruct (list_find (fun p => rollNo p = id) (clear_flag <$> data))
      as [[j x]|] eqn:Hf.
    + erewrite list_find_app_l by done. simpl.
      rewrite list_find_id_fmap in Hf by done.
      destruct (list_find _ data) as [[??]|]; by simplify_eq/=.
    + rewrite list_find_app_r by done. csimpl. rewrite decide_False by done.
      rewrite list_find_id_fmap in Hf by done.
      by destruct (list_find _ data) as [[??]|].
Qed.

Lemma lookup_player_apply_other id f e :
  ToString (e_rollNo e) ≠ "" → ToString (e_rollNo e) ≠ id →
  Forall (plain_player ct) (readData s2n f) → plain_entry ct e →
  lookup_player id (readData s2n (apply s2n ct f e))
  = (fun p => reload (clear_flag p)) <$> lookup_player id (readData s2n f).
Proof.
  intros He Hne Hpf Hpe. rewrite readData_apply, lookup_player_fmap by done.
  rewrite lookup_player_update_other by done.
  by destruct (lookup_player id _).
Qed.

Lemma runs_of_snoc id es e :
  runs_of id (es ++ [e])
  = runs_of id es ++ (if decide (ToString (e_rollNo e) = id) then [e] else []).
Proof.
  unfold runs_of. rewrite filter_app, filter_cons, filter_nil.
  by destruct (decide _).
Qed.

Lemma wins_snoc id es e :
  wins id (es ++ [e])
  = wins id es ++ (if decide (ToString (e_rollNo e) = id)
                   then if is_success e then [e] else [] else []).
Proof.
  unfold wins. rewrite runs_of_snoc, filter_app.
  destruct (decide _); [|done]. rewrite filter_cons, filter_nil.
  by destruct (is_success e).
Qed.

Lemma losses_snoc id es e :
  losses id (es ++ [e])
  = losses id es ++ (if decide (ToString (e_rollNo e) = id)
                     then if is_success e then [] else [e] else []).
Proof.
  unfold losses. rewrite runs_of_snoc, filter_app.
  destruct (decide _); [|done]. rewrite filter_cons, filter_nil.
  by destruct (is_success e).
Qed.

Lemma success_not_defeat e : is_success e = true → is_defeat e = false.
Proof.
  unfold is_success, is_defeat. destruct (e_status e) as [| |b|n|s]; try done.
  - by destruct n.
  - simpl. intros ->%bool_decide_eq_true. done.
Qed.

Lemma tally_record_run e q :
  successes (reload (record_run e (clear_flag q)))
  = or_zero (if is_success e then plus_one (or_zero (successes q)) else successes q) ∧
  defeats (reload (record_run e (clear_flag q)))
  = or_zero (if is_success e then defeats q else plus_one (or_zero (defeats q))).
Proof.
  unfold record_run. destruct (is_success e); [destruct (num_lt _ _)|]; done.
Qed.

(** X10: the counters of a player count that player's runs.  From a
    store that does not hold the player and whose strings the workbook
    keeps as written, after any sequence of calls for any players, each
    completing its write before the next (each with a name and a roll
    number that are read back as written, the roll number not rendering
    empty, and the status success or defeat), the player has a record
    exactly when one of the runs was theirs, and then [successes] is
    the number of their successful runs and [defeats] the number of
    their other runs: no run is lost, none is counted twice, and the
    runs of the others count for nothing. *)
Theorem counters_count_the_runs f id es :
  id ≠ "" →
  lookup_player id (readData s2n f) = None →
  Forall (plain_player ct) (readData s2n f) →
  Forall well_formed es → Forall (plain_entry ct) es →
  match lookup_player id (readData s2n (apply_all s2n ct f es)) with
  | None => runs_of id es = []
  | Some p =>
      runs_of id es ≠ [] ∧
      successes p = Fin (Z.of_nat (length (wins id es))) ∧
      defeats p = Fin (Z.of_nat (length (losses id es)))
  end.
Proof.
  intros Hid Hnone Hpf. induction es as [|e es IH] using rev_ind; intros Hes Hpes.
  - simpl. by rewrite Hnone.
  - apply Forall_app in Hes as [Hes [He Hst]%Forall_inv].
    apply Forall_app in Hpes as [Hpes Hpe%Forall_inv].
    specialize (IH Hes Hpes). rewrite apply_all_snoc.
    pose proof (plain_apply_all s2n ct f es Hpf Hpes) as Hpl.
    rewrite runs_of_snoc, wins_snoc, losses_snoc.
    destruct (decide (ToString (e_rollNo e) = id)) as [Heq|Hne].
    + subst id. rewrite lookup_player_apply by done.
      destruct (lookup_player _ (readData s2n (apply_all s2n ct f es))) as [q|].
      * destruct IH as (_ & Hw & Hl). split; [by destruct (runs_of _ es)|].
        destruct (tally_record_run e q) as [-> ->]. rewrite Hw, Hl.
        destruct (is_success e); simpl;
          rewrite ?length_app, ?app_nil_r; simpl;
          split; f_equal; lia.
      * rewrite IH. unfold wins, losses. rewrite IH. simpl. split; [done|].
        destruct (is_success e) eqn:Hs; simpl.
        -- by rewrite success_not_defeat.
        -- by destruct Hst as [Hs'|Hd]; [|rewrite Hd].
    + rewrite lookup_player_apply_other by done. rewrite !app_nil_r.
      destruct (lookup_player id (readData s2n (apply_all s2n ct f es))) as [q|];
        [|done].
      destruct IH as (? & Hw & Hl). simpl. by rewrite Hw, Hl.
Qed.

Lemma least_snoc l e : least (l ++ [e]) = num_min (least l) (e_time e).
Proof. unfold least. by rewrite foldl_app. Qed.

Lemma least_truthy l :
  Forall (fun e => e_time e ≠ 0) l → truthy (VNum (least l)) = true.
Proof.
  induction l as [|e l IH] using rev_ind; intros Hl; [done|].
  apply Forall_app in Hl as [Hl He%Forall_inv]. rewrite least_snoc.
  unfold num_min. destruct (num_lt _ _); [|by apply IH].
  simpl. by apply negb_true_iff, Z.eqb_neq.
Qed.

(** X11: the best time of a player is the least of that player's own
    successful runs.  From a store that does not hold the player and
    whose strings the workbook keeps as written, after any sequence of
    calls for any players, each completing its write before the next
    (names and roll numbers that are read back as written, roll numbers
    that do not render empty, status success or defeat, no success of
    the player of 0 ms), the best time on record for the player is the
    least elapsed time of their successful runs, and [Infinity] as long
    as they have none: neither their defeats nor the runs of the others
    move it. *)
Theorem best_time_among_all_runs f id es :
  id ≠ "" →
  lookup_player id (readData s2n f) = None →
  Forall (plain_player ct) (readData s2n f) →
  Forall well_formed es → Forall (plain_entry ct) es →
  Forall (fun e => e_time e ≠ 0) (wins id es) →
  best id (readData s2n (apply_all s2n ct f es))
  = if decide (runs_of id es = []) then None else Some (least (wins id es)).
Proof.
  intros Hid Hnone Hpf. unfold best.
  induction es as [|e es IH] using rev_ind; intros Hes Hpes Hw.
  - simpl. by rewrite Hnone.
  - apply Forall_app in Hes as [Hes [He Hst]%Forall_inv].
    apply Forall_app in Hpes as [Hpes Hpe%Forall_inv].
    rewrite wins_snoc in Hw. apply Forall_app in Hw as [Hw Hwe].
    specialize (IH Hes Hpes Hw). rewrite apply_all_snoc.
    pose proof (plain_apply_all s2n ct f es Hpf Hpes) as Hpl.
    rewrite runs_of_snoc, wins_snoc.
    pose proof (least_truthy _ Hw) as Hnormal.
    destruct (decide (ToString (e_rollNo e) = id)) as [Heq|Hne].
    + subst id. rewrite lookup_player_apply by done.
      rewrite decide_False by (by destruct (runs_of _ es)).
      cbn [fmap option_fmap option_map]. f_equal.
      destruct (lookup_player _ (readData s2n (apply_all s2n ct f es))) as [q|].
      * rewrite decide_False in IH by (by intros Hr; rewrite Hr in IH).
        injection IH as Hq.
        destruct (is_success e) eqn:Hs.
        -- apply Forall_inv in Hwe. rewrite least_snoc.
           assert (time (record_run e (clear_flag q))
                   = num_min (least (wins (ToString (e_rollNo e)) es)) (e_time e))
             as Ht.
           { unfold record_run, num_min. rewrite Hs.
             change (time (clear_flag q)) with (time q). rewrite Hq.
             by destruct (num_lt _ _). }
           rewrite time_reload_truthy; rewrite Ht; [done|].
           rewrite <- least_snoc. apply least_truthy, Forall_app.
           split; [done|by apply Forall_singleton].
        -- rewrite app_nil_r.
           assert (time (record_run e (clear_flag q)) = time q) as Ht.
           { unfold record_run. by rewrite Hs. }
           rewrite time_reload_truthy; rewrite Ht, Hq; done.
      * destruct (decide (runs_of (ToString (e_rollNo e)) es = [])) as [Hr|];
          [|done].
        unfold wins. rewrite Hr. simpl.
        unfold new_player, reload. simpl.
        destruct (is_success e) eqn:Hs; [|done].
        apply Forall_inv in Hwe. simpl.
        by rewrite (proj2 (Z.eqb_neq (e_time e) 0)).
    + rewrite lookup_player_apply_other by done. rewrite !app_nil_r.
      destruct (lookup_player id (readData s2n (apply_all s2n ct f es))) as [q|].
      * destruct (decide (runs_of id es = [])); [done|].
        injection IH as Hq. cbn [fmap option_fmap option_map]. f_equal.
        rewrite time_reload_truthy; cbn [time clear_flag]; by rewrite Hq.
      * by destruct (decide (runs_of id es = [])).
Qed.

End Runtime.

Lemma call_touches_one_record_witness :
  let data := [Player (VStr "AMY") "p1" (Fin 5000) (Fin 1) (Fin 0) true;
               Player (VStr "BO") "p2" (Fin 4000) (Fin 1) (Fin 0) false] in
  let e := Entry (VStr "BO") (VStr "p2") 3000 (VStr "success") in
  update data e !! 0%nat = clear_flag <$> data !! 0%nat.
Proof.
  intros data e. apply (proj2 (call_touches_one_record data e)).
  vm_compute. discriminate.
Defined.

Lemma one_record_per_roll_number_witness :
  let amy t st := Entry (VStr "AMY") (VStr "p1") t (VStr st) in
  let bo t st := Entry (VStr "BO") (VStr "p2") t (VStr st) in
  let f := Xlsx (new_workbook
                   [Player (VStr "AMY") "p1" (Fin 5000) (Fin 1) (Fin 0) false;
                    Player (VStr "BO") "p2" PInf (Fin 0) (Fin 1) false]) in
  NoDup (rollNo <$> readData decimal
                      (apply_all decimal xlsx_text f
                         [amy 4000 "success"; bo 100 "defeat"])).
Proof.
  intros amy bo f.
  apply (proj1 (one_record_per_roll_number decimal xlsx_text f
                  [amy 4000 "success"; bo 100 "defeat"]
                  ltac:(apply (bool_decide_unpack _); vm_compute; exact I)));
    apply (bool_decide_unpack _); vm_compute; exact I.
Defined.

Lemma counters_count_the_runs_witness :
  let amy t st := Entry (VStr "AMY") (VStr "p1") t (VStr st) in
  let bo t st := Entry (VStr "BO") (VStr "p2") t (VStr st) in
  let es := [amy 5000 "success"; bo 4000 "success"; amy 9000 "defeat";
             amy 4500 "success"; bo 100 "defeat"] in
  ∃ p, lookup_player "p1" (readData decimal (apply_all decimal xlsx_text fresh es))
       = Some p ∧
       successes p = Fin 2 ∧ defeats p = Fin 1.
Proof.
  intros amy bo es.
  pose proof (counters_count_the_runs decimal xlsx_text fresh "p1" es) as H.
  destruct (lookup_player "p1"
              (readData decimal (apply_all decimal xlsx_text fresh es))) as [p|].
  - exists p. split; [done|].
    apply H; [done | reflexivity | constructor | |];
      apply (bool_decide_unpack _); vm_compute; exact I.
  - exfalso. assert (runs_of "p1" es = []) as Hr; [|vm_compute in Hr; discriminate Hr].
    apply H; [done | reflexivity | constructor | |];
      apply (bool_decide_unpack _); vm_compute; exact I.
Defined.

Lemma best_time_among_all_runs_witness :
  let amy t st := Entry (VStr "AMY") (VStr "p1") t (VStr st) in
  let bo t st := Entry (VStr "BO") (VStr "p2") t (VStr st) in
  let es := [amy 5000 "success"; bo 4000 "success"; amy 9000 "defeat";
             amy 4500 "success"; bo 100 "defeat"] in
  best "p1" (readData decimal (apply_all decimal xlsx_text fresh es))
  = Some (Fin 4500).
Proof.
  intros amy bo es.
  rewrite (best_time_among_all_runs decimal xlsx_text fresh "p1" es);
    [vm_compute; reflexivity | done | reflexivity | constructor | | |];
    apply (bool_decide_unpack _); vm_compute; exact I.
Defined.

Lemma columns_are_found_by_header_witness :
  let hdr := [VStr "BestTime"; VStr "Note"; VStr "RollNo"; VStr "Name"] in
  let r := [VNum (Fin 5000); VStr "x"; VStr "p1"; VStr "AMY"] in
  get_raw KrollNo (read_cells (headerKeyMap hdr) r) = VStr "p1".
Proof.
  intros hdr r.
  apply (columns_are_found_by_header hdr r KrollNo 2); [reflexivity|].
  intros [|[|[|[|j]]]]; simpl; intros [=]; reflexivity.
Defined.

Lemma written_players_read_back_witness :
  let data := [Player (VStr "AMY") "p1" (Fin 5000) (Fin 2) (Fin 1) false;
               Player (VStr "BO") "p2" PInf (Fin 0) (Fin 3) false] in
  readData decimal (writeFile xlsx_text data) = data.
Proof.
  intros data. apply written_players_read_back.
  - repeat constructor; done.
  - apply (bool_decide_unpack _). vm_compute. exact I.
Defined.

Lemma second_save_changes_nothing_witness :
  let data := [Player VUndef "p1" (Fin 0) NaN (Fin 1) false;
               Player (VStr "BO") "" PInf (Fin 0) (Fin 3) false] in
  readData decimal (writeFile xlsx_text data)
  = [Player VNull "p1" PInf (Fin 0) (Fin 1) false] ∧
  readData decimal
    (writeFile xlsx_text (readData decimal (writeFile xlsx_text data)))
  = readData decimal (writeFile xlsx_text data).
Proof.
  intros data. split; [by vm_compute|].
  apply (second_save_changes_nothing decimal xlsx_text data).
  apply (bool_decide_unpack _). vm_compute. exact I.
Defined.

End StoreFacts.

Module LinkFacts.
Import Serial Link.

Lemma append_nil s : "" +:+ s = s.
Proof. reflexivity. Qed.

Lemma append_cons a s t : String a s +:+ t = String a (s +:+ t).
Proof. reflexivity. Qed.

Lemma prefix_app needle s : String.prefix needle s = true ↔ ∃ post, s = needle +:+ post.
Proof.
  revert s. induction needle as [|a needle IH]; intros s.
  - split; [|by destruct s]. intros _. exists s. by rewrite append_nil.
  - setoid_rewrite append_cons.
    destruct s as [|b s]; simpl; [split; [done|by intros [? ?]]|].
    destruct (Ascii.ascii_dec a b) as [->|Hne].
    + rewrite IH. split; intros [post Hp]; exists post; [by rewrite Hp|].
      by injection Hp.
    + split; [done|]. intros [post [= ? ?]]. done.
Qed.

(** [includes] finds exactly the substrings. *)
Lemma includes_spec needle s :
  includes needle s = true ↔ ∃ pre post, s = pre +:+ needle +:+ post.
Proof.
  induction s as [|a s IH]; cbn [includes].
  - rewrite orb_false_r, prefix_app. split.
    + intros [post Hp]. exists "", post. by rewrite append_nil.
    + intros (pre & post & Hp). destruct pre; [|done].
      rewrite append_nil in Hp. by exists post.
  - rewrite orb_true_iff, prefix_app, IH. split.
    + intros [[post Hp]|(pre & post & Hp)].
      * exists "", post. by rewrite append_nil.
      * exists (String a pre), post. by rewrite append_cons, Hp.
    + intros (pre & post & Hp). destruct pre as [|b pre].
      * left. rewrite append_nil in Hp. by exists post.
      * right. exists pre, post. rewrite append_cons in Hp. by injection Hp.
Qed.

Lemma is_arduino_spec p : is_arduino p = true ↔ names_board p.
Proof.
  unfold is_arduino, names_board. destruct (manufacturer p) as [m|]; split.
  - rewrite orb_true_iff, !andb_true_iff, !includes_spec.
    intros [[_ (pre & post & ->)]|[_ (pre & post & ->)]];
      eexists; exists pre, post; eauto.
  - intros (m' & pre & post & [= <-] & Hm).
    assert (m ≠ "") as Hne by (destruct Hm as [-> | ->]; by destruct pre).
    rewrite (bool_decide_eq_false_2 _ Hne). simpl.
    rewrite orb_true_iff, !includes_spec. destruct Hm; eauto.
  - done.
  - by intros (m & _ & _ & [=] & _).
Qed.

(** X12: the discovery connects to the first port in the list whose
    manufacturer contains Arduino or wch.cn, and to no other: the port
    it picks is in the list and names the board, no port before it in
    the list does, and when no port of the list names the board (a port
    without manufacturer never does), or the listing fails, the
    transport is left exactly as it was. *)
Theorem discovery_takes_first_board opens ports t :
  (∀ p, arduinoPort ports = Some p →
     setupSerialPort opens (Some ports) t = connectToPort opens (pi_path p) t ∧
     ∃ i, ports !! i = Some p ∧ names_board p ∧
          ∀ j q, ports !! j = Some q → (j < i)%nat → ¬ names_board q) ∧
  (arduinoPort ports = None ↔ ∀ q, q ∈ ports → ¬ names_board q) ∧
  (arduinoPort ports = None → setupSerialPort opens (Some ports) t = t) ∧
  setupSerialPort opens None t = t.
Proof.
  unfold arduinoPort, setupSerialPort, arduinoPort. split_and!.
  - intros p Hp.
    destruct (list_find _ ports) as [[i q]|] eqn:Hf; simplify_eq/=.
    split; [done|]. apply list_find_Some in Hf as (Hi & Hq & Hleast).
    exists i. split_and!; [done|by apply is_arduino_spec|].
    intros j q Hj Hlt Hn. by apply (Hleast j q Hj Hlt), is_arduino_spec.
  - destruct (list_find _ ports) as [[i q]|] eqn:Hf; simpl.
    + split; [done|]. intros Hno.
      apply list_find_Some in Hf as (Hi & Hq & _).
      destruct (Hno q); [by eapply list_elem_of_lookup_2|by apply is_arduino_spec].
    + split; [|done]. intros _ q Hq Hn.
      apply list_find_None in Hf. eapply Forall_forall in Hf; [|done].
      by apply Hf, is_arduino_spec.
  - by destruct (list_find _ ports) as [[i q]|].
  - done.
Qed.

Lemma discovery_takes_first_board_witness :
  let ports := [PortInfo "COM1" None; PortInfo "COM3" (Some "Arduino LLC (www.arduino.cc)");
                PortInfo "COM4" (Some "wch.cn")] in
  setupSerialPort true (Some ports) start = connectToPort true "COM3" start ∧
  setupSerialPort true (Some [PortInfo "COM1" None]) start = start.
Proof.
  intros ports.
  destruct (discovery_takes_first_board true ports start) as (H1 & _).
  destruct (discovery_takes_first_board true [PortInfo "COM1" None] start)
    as (_ & _ & H3 & _).
  split.
  - apply (H1 (PortInfo "COM3" (Some "Arduino LLC (www.arduino.cc)"))). reflexivity.
  - apply H3. reflexivity.
Defined.

(** *** Sending *)

Lemma send_command_wire opens ports c l :
  wire (send_command opens ports c l)
  = wire l ++ (if is_open (transport_of l) then [c +:+ newline] else []).
Proof.
  unfold send_command. destruct (is_open _); simpl; [done|by rewrite app_nil_r].
Qed.

(** X13: the port sees the commands at most once and in order: what a
    sequence of sends writes is a subsequence of the commands asked for,
    each followed by a newline; and the command that finds the port
    closed is never written, not even once the reconnection it started
    has opened the port: from a closed port, what is written is a
    subsequence of the commands after the first. *)
Theorem commands_written_at_most_once l cs :
  (∃ w, wire (send_all l cs) = wire l ++ w ∧ sublist w (lines_of cs)) ∧
  (is_open (transport_of l) = false →
   ∃ w, wire (send_all l cs) = wire l ++ w ∧ sublist w (lines_of (tail cs))).
Proof.
  assert (∀ cs l, ∃ w, wire (send_all l cs) = wire l ++ w ∧ sublist w (lines_of cs))
    as Hsub.
  { clear. induction cs as [|c cs IH]; intros l.
    - exists []. by rewrite app_nil_r.
    - destruct (IH (send_command c.1.1 c.1.2 c.2 l)) as (w & Hw & Hs).
      change (send_all l (c :: cs))
        with (send_all (send_command c.1.1 c.1.2 c.2 l) cs).
      rewrite Hw, send_command_wire.
      destruct (is_open (transport_of l)).
      + exists ((c.2 +:+ newline) :: w). split; [by rewrite <- app_assoc|].
        by apply sublist_skip.
      + exists w. split; [by rewrite app_nil_r|]. by apply sublist_cons. }
  split; [apply Hsub|]. intros Hclosed.
  destruct cs as [|c cs]; [exists []; by rewrite app_nil_r|].
  destruct (Hsub cs (send_command c.1.1 c.1.2 c.2 l)) as (w & Hw & Hs).
  exists w. split; [|done].
  change (send_all l (c :: cs)) with (send_all (send_command c.1.1 c.1.2 c.2 l) cs).
  by rewrite Hw, send_command_wire, Hclosed, app_nil_r.
Qed.

Lemma commands_written_at_most_once_witness :
  let board := [PortInfo "COM3" (Some "Arduino")] in
  wire (send_all (Link start []) [(true, Some board, "START"); (true, None, "START")])
  = ["START" +:+ newline].
Proof.
  intros board.
  destruct (commands_written_at_most_once (Link start [])
              [(true, Some board, "START"); (true, None, "START")])
    as (_ & H).
  destruct H as (w & Hw & Hs); [reflexivity|]. reflexivity.
Defined.

Lemma send_command_open opens ports c l :
  is_open (transport_of l) = true →
  transport_of (send_command opens ports c l) = transport_of l.
Proof. intros H. unfold send_command. by rewrite H. Qed.

(** X14: while the port is open nothing is lost: a sequence of commands
    sent to an open port is written whole, in order, each command
    followed by one newline, and the connection is left as it was. *)
Theorem open_port_gets_every_command l cs :
  is_open (transport_of l) = true →
  wire (send_all l cs) = wire l ++ lines_of cs ∧
  transport_of (send_all l cs) = transport_of l.
Proof.
  revert l. induction cs as [|c cs IH]; intros l Ho.
  - simpl. by rewrite app_nil_r.
  - change (send_all l (c :: cs))
      with (send_all (send_command c.1.1 c.1.2 c.2 l) cs).
    destruct (IH (send_command c.1.1 c.1.2 c.2 l)) as [Hw Ht].
    { by rewrite send_command_open. }
    rewrite Hw, Ht, send_command_wire, Ho, send_command_open by done.
    split; [|done]. by rewrite <- app_assoc.
Qed.

Lemma open_port_gets_every_command_witness :
  let l := Link (connectToPort true "COM3" start) [] in
  wire (send_all l [(true, None, "START"); (true, None, "START")])
  = ["START" +:+ newline; "START" +:+ newline].
Proof.
  intros l.
  destruct (open_port_gets_every_command l
              [(true, None, "START"); (true, None, "START")]) as [H _];
    [reflexivity|exact H].
Defined.

End LinkFacts.

Module ViewFacts.
Import JS Excel Main Renderer View.

(** *** The clock *)

Lemma length_append (s t : string) :
  String.length (s +:+ t) = (String.length s + String.length t)%nat.
Proof.
  induction s as [|c s IH]; [done|].
  rewrite LinkFacts.append_cons. simpl. by rewrite IH.
Qed.

Lemma append_inj_length (s1 s2 t1 t2 : string) :
  String.length t1 = String.length t2 →
  s1 +:+ t1 = s2 +:+ t2 → s1 = s2 ∧ t1 = t2.
Proof.
  intros Hl. revert s2. induction s1 as [|c s1 IH]; intros [|c' s2] H;
    rewrite ?LinkFacts.append_nil, ?LinkFacts.append_cons in H.
  - done.
  - subst t1. simpl in Hl. rewrite length_append in Hl. lia.
  - subst t2. simpl in Hl. rewrite length_append in Hl. lia.
  - injection H as -> H. by destruct (IH _ H) as [-> ->].
Qed.

Lemma pretty_N_go_canonical (x : N) s :
  (0 < x)%N → canonical (pretty_N_go x s).
Proof.
  revert s. induction (N.lt_wf_0 x) as [x _ IH]. intros s Hx.
  rewrite pretty_N_go_step by done.
  destruct (decide (x / 10 = 0)%N) as [H0|H0].
  - rewrite H0, pretty_N_go_0. right. eexists _, _. split; [done|].
    assert (x < 10)%N as Hlt by (apply N.div_small_iff in H0; lia).
    rewrite N.mod_small by done.
    destruct x as [|p]; [lia|].
    do 4 (destruct p as [p|p|]; try done; try lia).
  - apply IH; [apply N.div_lt; lia|by apply N.neq_0_lt_0].
Qed.

Lemma pretty_canonical (z : Z) : canonical (pretty z).
Proof.
  destruct z as [|p|p].
  - by left.
  - change (pretty (Z.pos p)) with (pretty (N.pos p)).
    unfold pretty, pretty_N. simpl. by apply pretty_N_go_canonical.
  - right. by exists "-"%char, (pretty p).
Qed.

Lemma zeros_canonical_inj j k s t :
  canonical s → canonical t → zeros j +:+ s = zeros k +:+ t → s = t.
Proof.
  intros Hs Ht. revert k.
  induction j as [|j IH]; intros [|k] H; cbn [zeros] in H;
    rewrite ?LinkFacts.append_nil, ?LinkFacts.append_cons in H.
  - done.
  - destruct Hs as [->|(c & r & -> & Hc)]; [|by injection H as -> _].
    injection H as H. destruct k; cbn [zeros] in H;
      rewrite ?LinkFacts.append_nil, ?LinkFacts.append_cons in H; [|done].
    subst t. by destruct Ht as [|(? & ? & ? & _)].
  - destruct Ht as [->|(c & r & -> & Hc)]; [|by injection H as <- _].
    injection H as H. destruct j; cbn [zeros] in H;
      rewrite ?LinkFacts.append_nil, ?LinkFacts.append_cons in H; [|done].
    subst s. by destruct Hs as [|(? & ? & ? & _)].
  - injection H as H. by apply (IH k).
Qed.

Lemma padStart_inj n (a b : Z) :
  padStart n (pretty a) = padStart n (pretty b) → a = b.
Proof.
  intros H. apply (inj pretty).
  eapply zeros_canonical_inj; [apply pretty_canonical..|exact H].
Qed.

Lemma padStart_length_3 n :
  0 ≤ n < 1000 → String.length (padStart 3 (pretty n)) = 3%nat.
Proof.
  intros Hn.
  assert (Forall (fun n => String.length (padStart 3 (pretty n)) = 3%nat)
                 (seqZ 0 1000)) as H.
  { apply (bool_decide_unpack _). vm_compute. exact I. }
  eapply Forall_forall in H; [done|]. apply elem_of_seqZ. lia.
Qed.

Lemma padStart_length_2 n :
  0 ≤ n < 100 → String.length (padStart 2 (pretty n)) = 2%nat.
Proof.
  intros Hn.
  assert (Forall (fun n => String.length (padStart 2 (pretty n)) = 2%nat)
                 (seqZ 0 100)) as H.
  { apply (bool_decide_unpack _). vm_compute. exact I. }
  eapply Forall_forall in H; [done|]. apply elem_of_seqZ. lia.
Qed.

Lemma formatTime_Fin z :
  formatTime (Fin z)
  = padStart 2 (pretty (z `div` 60000)) +:+ ":" +:+
    padStart 2 (pretty ((z `rem` 60000) `div` 1000)) +:+ ":" +:+
    padStart 3 (pretty (z `rem` 1000)).
Proof. reflexivity. Qed.

Lemma formatTime_inj a b :
  0 ≤ a → 0 ≤ b → formatTime (Fin a) = formatTime (Fin b) → a = b.
Proof.
  intros Ha Hb. rewrite !formatTime_Fin. intros H.
  rewrite !Z.rem_mod_nonneg in H by lia.
  apply append_inj_length in H as [Hm H].
  2:{ rewrite !length_append.
      rewrite !padStart_length_2, !padStart_length_3; [done|..];
        Z.to_euclidean_division_equations; lia. }
  rewrite !LinkFacts.append_cons, !LinkFacts.append_nil in H.
  injection H as H.
  apply append_inj_length in H as [Hs H].
  2:{ cbn [String.length]. rewrite !padStart_length_3; [done|..];
        Z.to_euclidean_division_equations; lia. }
  injection H as H.
  apply padStart_inj in Hm, Hs, H.
  Z.to_euclidean_division_equations. lia.
Qed.

(** X15: the clock loses nothing: two elapsed times that are not
    negative and differ are displayed differently, however long the
    run. *)
Theorem clock_reading_determines_time a b :
  0 ≤ a → 0 ≤ b → a ≠ b → formatTime (Fin a) ≠ formatTime (Fin b).
Proof. intros Ha Hb Hne H. by apply Hne, formatTime_inj. Qed.

Lemma pretty_N_go_length (x : N) s :
  (0 < x)%N → (String.length s < String.length (pretty_N_go x s))%nat.
Proof.
  revert s. induction (N.lt_wf_0 x) as [x _ IH]. intros s Hx.
  rewrite pretty_N_go_step by done.
  destruct (decide (x / 10 = 0)%N) as [H0|H0].
  - rewrite H0, pretty_N_go_0. simpl. lia.
  - etrans; [|apply IH; [apply N.div_lt; lia|by apply N.neq_0_lt_0]].
    simpl. lia.
Qed.

Lemma pretty_length_3 m : 100 ≤ m → (3 ≤ String.length (pretty m))%nat.
Proof.
  intros Hm. destruct m as [|p|p]; [lia| |lia].
  change (pretty (Z.pos p)) with (pretty (N.pos p)).
  unfold pretty, pretty_N. simpl.
  assert (0 < N.pos p / 10 / 10)%N as H2.
  { apply N.div_str_pos. split; [lia|].
    apply N.div_le_lower_bound; lia. }
  assert (0 < N.pos p / 10)%N as H1.
  { apply N.div_str_pos. lia. }
  rewrite pretty_N_go_step by done. rewrite pretty_N_go_step by done.
  pose proof (pretty_N_go_length _ (String (pretty_N_char (N.pos p / 10 mod 10))
    (String (pretty_N_char (N.pos p mod 10)) "")) H2) as H.
  simpl in H. lia.
Qed.

(** X16: the clock is nine characters wide, two digits, a colon, two
    digits, a colon and three digits, exactly for the times below one
    hundred minutes: from there on the minutes take the room they
    need and the reading is longer. *)
Theorem clock_is_nine_wide_below_100_minutes z :
  0 ≤ z → String.length (formatTime (Fin z)) = 9%nat ↔ z < 6000000.
Proof.
  intros Hz. rewrite formatTime_Fin, !Z.rem_mod_nonneg by lia.
  rewrite !length_append. cbn [String.length].
  rewrite (padStart_length_2 ((z `mod` 60000) `div` 1000))
    by (Z.to_euclidean_division_equations; lia).
  rewrite padStart_length_3 by (Z.to_euclidean_division_equations; lia).
  destruct (decide (z < 6000000)) as [Hlt|Hge].
  - rewrite padStart_length_2 by (Z.to_euclidean_division_equations; lia).
    done.
  - assert (100 ≤ z `div` 60000) as Hm
      by (Z.to_euclidean_division_equations; lia).
    apply pretty_length_3 in Hm. unfold padStart.
    destruct (String.length (pretty (z `div` 60000))) as [|[|[|n]]] eqn:E;
      try lia.
    cbn [Nat.sub zeros]. rewrite LinkFacts.append_nil, E. split; lia.
Qed.

(** *** The ranking *)

Lemma num_lt_asym a b : num_lt a b = true → num_lt b a = false.
Proof. destruct a, b; simpl; try done. intros ?%Z.ltb_lt. apply Z.ltb_ge. lia. Qed.

Lemma num_le_trans a b c :
  b ≠ NaN → num_lt b a = false → num_lt c b = false → num_lt c a = false.
Proof.
  destruct a, b, c; simpl; try done.
  intros _ ?%Z.ltb_ge ?%Z.ltb_ge. apply Z.ltb_ge. lia.
Qed.

Lemma num_le_antisym a b :
  a ≠ NaN → b ≠ NaN → num_lt a b = false → num_lt b a = false → a = b.
Proof.
  destruct a, b; simpl; try done.
  intros _ _ ?%Z.ltb_ge ?%Z.ltb_ge. f_equal. lia.
Qed.

Lemma insert_by_time_perm a l : insert_by_time a l ≡ₚ a :: l.
Proof.
  induction l as [|b l IH]; [done|]. simpl. destruct (after a b); [|done].
  rewrite IH. apply Permutation_swap.
Qed.

Lemma sort_by_time_perm l : sort_by_time l ≡ₚ l.
Proof.
  induction l as [|a l IH]; [done|]. unfold sort_by_time in *. simpl.
  by rewrite insert_by_time_perm, IH.
Qed.

Lemma insert_by_time_sorted a l :
  Forall has_time l → StronglySorted not_after l →
  StronglySorted not_after (insert_by_time a l).
Proof.
  intros Ht Hs. induction Hs as [|b l Hs IH Hb]; simpl.
  - by repeat constructor.
  - apply Forall_cons in Ht as [Hbt Ht]. destruct (after a b) eqn:Hab.
    + constructor; [by apply IH|]. rewrite insert_by_time_perm.
      constructor; [|done]. by apply num_lt_asym.
    + constructor; [by constructor|]. constructor; [done|].
      eapply Forall_impl; [exact Hb|]. intros x Hx.
      unfold not_after, after in *. by eapply num_le_trans.
Qed.

Lemma sort_by_time_sorted l :
  Forall has_time l → StronglySorted not_after (sort_by_time l).
Proof.
  induction 1 as [|a l Ha Hl IH]; [constructor|].
  unfold sort_by_time in *. simpl. apply insert_by_time_sorted; [|done].
  by rewrite sort_by_time_perm.
Qed.

Lemma successfulPlayers_has_time data :
  Forall has_time data → Forall has_time (successfulPlayers data).
Proof.
  rewrite !Forall_forall. intros H p [_ Hp]%list_elem_of_filter. by apply H.
Qed.

Lemma ranking_sorted_perm data :
  Forall has_time data →
  StronglySorted not_after (sortedData data) ∧
  sortedData data ≡ₚ successfulPlayers data.
Proof.
  intros H. split; [|apply sort_by_time_perm].
  by apply sort_by_time_sorted, successfulPlayers_has_time.
Qed.

(** X17: the ranking lists every player with a best time once, the
    lower time first.  When no best time of the data is NaN, the rows of
    [renderLeaderboard] are the players whose time is not [Infinity],
    each as often as in the data, and no row has a time below that of a
    row above it. *)
Theorem ranking_is_sorted data :
  Forall has_time data →
  StronglySorted not_after (sortedData data) ∧
  sortedData data ≡ₚ successfulPlayers data.
Proof. apply ranking_sorted_perm. Qed.

(** X18: the ten rows shown are the ten best, when no best time of the
    data is NaN.  Then [top10] has ten rows at most, it is the whole
    ranking when ten players or fewer have a best time, and no player
    left out has a time below that of a player shown. *)
Theorem top10_are_the_best data :
  Forall has_time data →
  (length (top10 data) ≤ 10)%nat ∧
  ((length (successfulPlayers data) ≤ 10)%nat → top10 data ≡ₚ successfulPlayers data) ∧
  (∀ p q, p ∈ top10 data → q ∈ drop 10 (sortedData data) → not_after p q).
Proof.
  intros H. destruct (ranking_sorted_perm data H) as [Hs Hp]. unfold top10.
  split_and!.
  - rewrite length_take. lia.
  - intros Hl. rewrite take_ge; [done|]. by rewrite Hp.
  - intros p q Hin Hq. rewrite <- (take_drop 10 (sortedData data)) in Hs.
    by eapply StronglySorted_app_1_elem_of.
Qed.

(** *** The statistics *)

Local Abbreviation lower :=
  (fun (min : num) (p : player) => if num_lt (time p) min then time p else min).

Lemma num_lt_irrefl a : num_lt a a = false.
Proof. destruct a; simpl; try done. apply Z.ltb_irrefl. Qed.

Lemma fold_lower_spec l b :
  b ≠ NaN → Forall has_time l →
  num_lt b (foldl lower b l) = false ∧
  Forall (fun x => num_lt (time x) (foldl lower b l) = false) l ∧
  (foldl lower b l = b ∨ ∃ x, x ∈ l ∧ foldl lower b l = time x).
Proof.
  intros Hb Hl. revert b Hb. induction Hl as [|a l Ha Hl IH]; intros b Hb.
  - simpl. split_and!; [apply num_lt_irrefl|constructor|by left].
  - cbn [foldl].
    assert (lower b a ≠ NaN) as Hb' by (simpl; by destruct (num_lt _ _)).
    assert (num_lt b (lower b a) = false ∧ num_lt (time a) (lower b a) = false)
      as [H1 H2].
    { simpl. destruct (num_lt (time a) b) eqn:E.
      - split; [by apply num_lt_asym|apply num_lt_irrefl].
      - split; [apply num_lt_irrefl|done]. }
    destruct (IH _ Hb') as (H3 & H4 & H5). split_and!.
    + by eapply num_le_trans.
    + constructor; [|done]. by eapply num_le_trans.
    + destruct H5 as [->|(x & Hx & ->)].
      * simpl. destruct (num_lt (time a) b); [right|by left].
        exists a. split; [by left|done].
      * right. exists x. split; [by right|done].
Qed.

(** X19: the record of the statistics is the time of the first row of
    the ranking.  When no best time of the data is NaN, [updateStats]
    finds a record exactly when the ranking has a row, and the record
    is the time of the player ranked first. *)
Theorem record_is_rank_one data :
  Forall has_time data →
  bestTime data = time <$> head (sortedData data).
Proof.
  intros H. destruct (ranking_sorted_perm data H) as [Hs Hp].
  apply successfulPlayers_has_time in H. unfold bestTime.
  assert (Forall (fun p => time p ≠ PInf) (successfulPlayers data)) as Hfin.
  { apply Forall_forall. intros p [Hf _]%list_elem_of_filter.
    intros Heq. by rewrite Heq in Hf. }
  destruct (successfulPlayers data) as [|a l] eqn:El.
  { apply Permutation_nil_r in Hp. by rewrite Hp. }
  destruct (sortedData data) as [|p r].
  { by apply Permutation_nil_cons in Hp. }
  change (time <$> head (p :: r)) with (Some (time p)). f_equal.
  destruct (fold_lower_spec (a :: l) PInf) as (_ & Hall & Hm); [done..|].
  assert (p ∈ a :: l) as Hpl by (rewrite <- Hp; by left).
  apply StronglySorted_inv in Hs as [_ Hr].
  destruct Hm as [Hm|(x & Hx & Hm)].
  - exfalso. rewrite Hm in Hall. apply Forall_inv in Hall.
    apply Forall_inv in Hfin. apply Forall_inv in H. unfold has_time in H.
    by destruct (time a).
  - rewrite Hm. symmetry.
    assert (has_time p ∧ has_time x) as [Htp Htx].
    { split; eapply Forall_forall; eauto. }
    apply num_le_antisym; [done..| |].
    + rewrite <- Hm. eapply Forall_forall in Hall; [exact Hall|done].
    + rewrite <- Hp in Hx. apply elem_of_cons in Hx as [->|Hx].
      * apply num_lt_irrefl.
      * eapply Forall_forall in Hr; [exact Hr|done].
Qed.

Lemma sumZ_app l k : sumZ (l ++ k) = sumZ l + sumZ k.
Proof. unfold sumZ. induction l as [|x l IH]; simpl; lia. Qed.

Lemma sumZ_cons x l : sumZ (x :: l) = x + sumZ l.
Proof. reflexivity. Qed.

Lemma sumZ_alter (h : player → Z) f (i : nat) (l : list player) x :
  l !! i = Some x →
  sumZ (h <$> alter f i l) = sumZ (h <$> l) - h x + h (f x).
Proof.
  revert i. induction l as [|y l IH]; intros [|i] Hi; try done.
  - injection Hi as ->. change (alter f 0%nat (x :: l)) with (f x :: l).
    rewrite !fmap_cons, !sumZ_cons. lia.
  - change (alter f (S i) (y :: l)) with (y :: alter f i l).
    rewrite !fmap_cons, !sumZ_cons, (IH i Hi). lia.
Qed.

Lemma total_as_sum (g : player → num) (l : list player) b :
  Forall (fun p => ∃ a, g p = Fin a) l →
  foldl (fun sum p => num_add sum (or_zero (g p))) (Fin b) l
  = Fin (b + sumZ ((fun p => finite_part (g p)) <$> l)).
Proof.
  intros H. revert b. induction H as [|p l [a Hp] _ IH]; intros b.
  - unfold sumZ. simpl. f_equal. lia.
  - cbn [foldl]. rewrite Hp. cbn [or_zero num_add].
    rewrite IH, fmap_cons, Hp, sumZ_cons. cbn [finite_part]. f_equal. lia.
Qed.

Lemma counted_record_run e p : counted p → counted (record_run e p).
Proof.
  intros [[a Ha] [b Hb]]. unfold record_run, counted.
  repeat case_match; simpl; rewrite ?Ha, ?Hb; simpl; eauto.
Qed.

Lemma counted_reload p : counted p → counted (reload p).
Proof. intros [[a Ha] [b Hb]]. unfold counted. simpl. rewrite Ha, Hb. eauto. Qed.

Lemma counted_new_player e : counted (new_player e).
Proof. unfold counted, new_player. simpl. repeat case_match; eauto. Qed.

Lemma counted_update data e :
  Forall counted data → Forall counted (reload <$> update data e).
Proof.
  intros H. apply Forall_fmap.
  assert (Forall (fun p => counted (reload p)) (clear_flag <$> data)) as Hc.
  { apply Forall_fmap. eapply Forall_impl; [done|]. intros p Hp.
    by apply counted_reload. }
  unfold update. destruct (findIndex _ data) as [i|].
  - apply Forall_forall. intros p Hp.
    apply list_elem_of_lookup in Hp as [j Hj].
    destruct (decide (j = i)) as [->|Hne].
    + rewrite list_lookup_alter_eq, list_lookup_fmap in Hj.
      destruct (data !! i) as [q|] eqn:Hq; simplify_eq/=.
      apply counted_reload, counted_record_run.
      eapply Forall_forall in H; [|by eapply list_elem_of_lookup_2]. done.
    + rewrite list_lookup_alter_ne in Hj by done.
      eapply Forall_forall in Hc; [done|]. by eapply list_elem_of_lookup_2.
  - apply Forall_app. split; [done|]. apply Forall_singleton.
    apply counted_reload, counted_new_player.
Qed.

Lemma tally_update data e :
  Store.well_formed e → Forall counted data →
  sumZ ((fun p => finite_part (successes p)) <$> (reload <$> update data e))
  = sumZ ((fun p => finite_part (successes p)) <$> data)
    + (if is_success e then 1 else 0) ∧
  sumZ ((fun p => finite_part (defeats p)) <$> (reload <$> update data e))
  = sumZ ((fun p => finite_part (defeats p)) <$> data)
    + (if is_success e then 0 else 1).
Proof.
  intros [_ Hst] Hc. pose proof (MainFacts.update_cases data e) as H.
  cbv zeta in H. rewrite <- !list_fmap_compose.
  assert (∀ p, finite_part (successes (reload (clear_flag p)))
               = finite_part (successes p)) as Hs.
  { intros p. simpl. by destruct (successes p). }
  assert (∀ p, finite_part (defeats (reload (clear_flag p)))
               = finite_part (defeats p)) as Hd.
  { intros p. simpl. by destruct (defeats p). }
  assert (((fun p => finite_part (successes p)) ∘ reload) ∘ clear_flag <$> data
          = (fun p => finite_part (successes p)) <$> data) as Es.
  { apply list_fmap_ext. intros. apply Hs. }
  assert (((fun p => finite_part (defeats p)) ∘ reload) ∘ clear_flag <$> data
          = (fun p => finite_part (defeats p)) <$> data) as Ed.
  { apply list_fmap_ext. intros. apply Hd. }
  destruct H as [(i & q & _ & Hi & _ & _ & _ & ->)|(_ & _ & _ & ->)].
  - assert ((clear_flag <$> data) !! i = Some (clear_flag q)) as Hi'
      by (by rewrite list_lookup_fmap, Hi).
    assert (counted q) as [[a Ha] [b Hb]].
    { eapply Forall_forall in Hc; [done|]. by eapply list_elem_of_lookup_2. }
    destruct (StoreFacts.tally_record_run e q) as [Ts Td].
    rewrite !(sumZ_alter _ _ _ _ _ Hi'), <- !list_fmap_compose, Es, Ed.
    unfold compose. rewrite Ts, Td, !Hs, !Hd, Ha, Hb.
    destruct (is_success e); simpl; lia.
  - rewrite !fmap_app, !sumZ_app, <- !list_fmap_compose, Es, Ed.
    unfold compose, new_player. simpl.
    destruct (is_success e) eqn:E; simpl.
    + rewrite StoreFacts.success_not_defeat by done. simpl. lia.
    + destruct Hst as [? | ->]; [done|]. simpl. lia.
Qed.

Section Runtime.
Variable s2n : string -> num.
Variable ct : string -> option string.

Lemma tally_apply_all es :
  Forall Store.well_formed es → Forall (plain_entry ct) es →
  Forall counted (readData s2n (apply_all s2n ct fresh es)) ∧
  sumZ ((fun p => finite_part (successes p))
          <$> readData s2n (apply_all s2n ct fresh es))
  = Z.of_nat (length (filter (fun e => is_success e = true) es)) ∧
  sumZ ((fun p => finite_part (defeats p))
          <$> readData s2n (apply_all s2n ct fresh es))
  = Z.of_nat (length (filter (fun e => is_defeat e = true) es)) ∧
  (length (filter (fun e => is_success e = true) es)
   + length (filter (fun e => is_defeat e = true) es) = length es)%nat.
Proof.
  induction es as [|e es IH] using rev_ind; intros Hes Hpes.
  - split_and!; [constructor|done..].
  - apply Forall_app in Hes as [Hes He%Forall_inv].
    apply Forall_app in Hpes as [Hpes Hpe%Forall_inv].
    destruct (IH Hes Hpes) as (Hc & Hs & Hd & Hl).
    rewrite MainFacts.apply_all_snoc.
    rewrite MainFacts.readData_apply;
      [|apply He|apply MainFacts.plain_apply_all; [constructor|done]|done].
    destruct (tally_update _ e He Hc) as [Ts Td].
    rewrite Ts, Td, Hs, Hd, !filter_app, !length_app, !filter_cons, !filter_nil.
    split; [by apply counted_update|].
    destruct He as [_ Hst].
    destruct (is_success e) eqn:E.
    + rewrite decide_True by done.
      rewrite (decide_False (P := is_defeat e = true)).
      2:{ by rewrite StoreFacts.success_not_defeat. }
      simpl. lia.
    + destruct Hst as [?|Hdf]; [done|]. rewrite Hdf.
      rewrite decide_False by done. rewrite decide_True by done.
      simpl. lia.
Qed.

(** X20: the statistics count every run once.  On what [readData]
    returns from a store that started as the file of
    [initializeLeaderboard] and went through any sequence of calls,
    each completing its write before the next, each with a name and a
    roll number the workbook keeps as written, the roll number not
    rendering empty, and the status success or defeat, the successes
    [updateStats] adds up are the successful runs, the defeats the
    others, and the attempts all the calls. *)
Theorem statistics_count_every_run es :
  Forall Store.well_formed es → Forall (plain_entry ct) es →
  totalSuccesses (readData s2n (apply_all s2n ct fresh es))
  = Fin (Z.of_nat (length (filter (fun e => is_success e = true) es))) ∧
  totalDefeats (readData s2n (apply_all s2n ct fresh es))
  = Fin (Z.of_nat (length (filter (fun e => is_defeat e = true) es))) ∧
  totalAttempts (readData s2n (apply_all s2n ct fresh es))
  = Fin (Z.of_nat (length es)).
Proof.
  intros Hes Hpes. destruct (tally_apply_all es Hes Hpes) as (Hc & Hs & Hd & Hl).
  assert (totalSuccesses (readData s2n (apply_all s2n ct fresh es))
          = Fin (Z.of_nat (length (filter (fun e => is_success e = true) es))))
    as Ts.
  { unfold totalSuccesses. rewrite total_as_sum, Hs; [done|].
    eapply Forall_impl; [exact Hc|]. by intros p [? _]. }
  assert (totalDefeats (readData s2n (apply_all s2n ct fresh es))
          = Fin (Z.of_nat (length (filter (fun e => is_defeat e = true) es))))
    as Td.
  { unfold totalDefeats. rewrite total_as_sum, Hd; [done|].
    eapply Forall_impl; [exact Hc|]. by intros p [_ ?]. }
  split_and!; [done..|].
  unfold totalAttempts. rewrite Ts, Td. simpl. f_equal. lia.
Qed.

End Runtime.

(** *** Sessions *)

Lemma finishGame_idle now st p :
  timed p = false → finishGame now st p = (p, None).
Proof. unfold timed, finishGame. by destruct (timerInterval p) as [[|h]|]. Qed.

Lemma finishGame_not_timed now st p : timed (finishGame now st p).1 = false.
Proof.
  unfold finishGame, timed.
  by destruct (timerInterval p) as [[|h]|] eqn:E; simpl; rewrite ?E.
Qed.

Lemma finishGame_timed now st p :
  timed p = true →
  ∃ h, timerInterval p = Some h ∧
  finishGame now st p
  = (Page None (startTime p) (currentPlayer p) (name_input p) (rollNo_input p)
          (errorMessage p) (playerInfo p) (active p)
          (clearInterval h (timers p)) (next_handle p) (commands p),
     Some (Message (cp_name (currentPlayer p)) (cp_rollNo (currentPlayer p))
                   (match startTime p with
                    | Some start => Fin (now - start)
                    | None => NaN
                    end) st)).
Proof.
  unfold timed, finishGame. destruct (timerInterval p) as [[|h]|]; try done.
  intros _. by eexists.
Qed.

Lemma finishGame_invariant now st p msgs :
  st = "success" ∨ st = "defeat" →
  invariant (p, msgs) →
  invariant ((finishGame now st p).1,
             msgs ++ match (finishGame now st p).2 with
                     | Some m => [m]
                     | None => []
                     end).
Proof.
  intros Hst Hinv. destruct (timed p) eqn:Ep.
  2:{ rewrite finishGame_idle by done. simpl. by rewrite app_nil_r. }
  destruct (finishGame_timed now st p Ep) as (h & Eh & ->).
  destruct Hinv as ((Hh & Ht & Hn) & Hr & Hm & Hl & Hc). simpl in *.
  rewrite Ep in Hl. destruct (Hh h Eh) as [_ [start Hs]].
  split_and!; simpl.
  - split_and!; simpl; [done| |done].
    apply Forall_forall. intros h' [_ Hin]%list_elem_of_filter.
    eapply Forall_forall in Ht; [|done]. done.
  - done.
  - apply Forall_app. split; [done|]. apply Forall_singleton.
    rewrite Hs. split_and!; simpl; [by eexists|by apply Hr|done].
  - rewrite length_app. simpl. lia.
  - done.
Qed.

Section Strings.
Variable trim : string -> string.
Variable toUpperCase : string -> string.

Local Abbreviation begin := (handleStartTrial trim toUpperCase).
Local Abbreviation listen := (onSerialData trim).
Local Abbreviation run := (session trim toUpperCase).

Lemma onSerialData_cases now data p :
  listen now data p = (p, None) ∨
  listen now data p = finishGame now "success" p.
Proof.
  unfold onSerialData. destruct data; try by left.
  repeat case_match; auto.
Qed.

Lemma begin_invariant now p msgs :
  invariant (p, msgs) → invariant (begin now p, msgs).
Proof.
  intros ((Hh & Ht & Hn) & Hr & Hm & Hl & Hc). simpl in *.
  unfold handleStartTrial, startTimer.
  destruct (bool_decide _ || bool_decide _) eqn:E; simpl.
  { by split_and!. }
  apply orb_false_iff in E as [_ E%bool_decide_eq_false].
  assert (∃ h, next_handle p = S h) as [h Eh] by (destruct (next_handle p); [lia|by eexists]).
  split_and!; simpl.
  - split_and!; simpl.
    + intros ? [= <-]. split; [by left|by eexists].
    + constructor; [lia|]. eapply Forall_impl; [exact Ht|]. simpl. lia.
    + lia.
  - done.
  - done.
  - unfold timed. simpl. rewrite Eh, length_app. simpl.
    destruct (timed p); lia.
  - apply Forall_app. split; [done|]. by apply Forall_singleton.
Qed.

Lemma step_invariant s ev : invariant s → invariant (step trim toUpperCase s ev).
Proof.
  destruct s as [p msgs]. intros Hinv. destruct ev; simpl.
  - done.
  - by apply begin_invariant.
  - apply finishGame_invariant; auto.
  - apply finishGame_invariant; auto.
  - destruct (onSerialData_cases now data p) as [-> | ->].
    + simpl. by rewrite app_nil_r.
    + apply finishGame_invariant; auto.
  - done.
  - done.
  - done.
  - done.
Qed.

Lemma session_snoc evs ev :
  run (evs ++ [ev]) = step trim toUpperCase (run evs) ev.
Proof. unfold session. by rewrite foldl_app. Qed.

Lemma session_invariant evs : invariant (run evs).
Proof.
  induction evs as [|ev evs IH] using rev_ind.
  - split_and!; simpl; try done; try lia. split_and!; simpl; [done|constructor|lia].
  - rewrite session_snoc. by apply step_invariant.
Qed.

(** X21: every message the page sends to [saveData] is a run the
    handler records: whatever the user clicks and types and whatever
    the board sends, in any order, the time of the message is an
    integer (never NaN), its roll number is not empty and its status is
    success or defeat. *)
Theorem every_message_is_a_run evs : Forall valid (run evs).2.
Proof. apply session_invariant. Qed.

(** X22: the page never reports more outcomes than it started runs.
    All along a session the messages sent to [saveData], with the run
    being timed if there is one, are at most as many as the commands
    sent to the board, which are all START. *)
Theorem outcomes_do_not_exceed_starts evs :
  (length (run evs).2 + (if timed (run evs).1 then 1 else 0)
   ≤ length (commands (run evs).1))%nat ∧
  Forall (fun c => c = "START") (commands (run evs).1).
Proof. split; apply session_invariant. Qed.

(** X23: a run ends once.  After [finishGame] has run, the page is not
    timing, and until the next begin neither button, nor any data from
    the board, sends a second message or changes the page. *)
Theorem run_ends_once now st p now' st' data :
  timed (finishGame now st p).1 = false ∧
  finishGame now' st' (finishGame now st p).1 = ((finishGame now st p).1, None) ∧
  listen now' data (finishGame now st p).1 = ((finishGame now st p).1, None).
Proof.
  pose proof (finishGame_not_timed now st p) as Hidle.
  split; [done|]. split; [by apply finishGame_idle|].
  destruct (onSerialData_cases now' data (finishGame now st p).1) as [->| ->];
    [done|by apply finishGame_idle].
Qed.

Lemma clearInterval_fresh h (l : list nat) :
  h ∉ l → clearInterval h (h :: l) = l.
Proof.
  intros Hh. unfold clearInterval. rewrite filter_cons, decide_False by naive_solver.
  induction l as [|x l IH]; [done|].
  apply not_elem_of_cons in Hh as [Hx Hl].
  rewrite filter_cons, decide_True by done. by rewrite IH.
Qed.

(** X24: a run is timed from its begin to its end.  On a page whose
    timer state is consistent, a begin at [t0] with a name and a roll
    number that are not empty once trimmed, followed by the end of the
    run at [t1], sends one message: the name trimmed and in upper case,
    the roll number trimmed, the time [t1 - t0] and the status of the
    end.  The interval of the run is cleared, and the intervals that
    were set before the begin still are. *)
Theorem run_is_timed_from_begin_to_end t0 t1 st p :
  consistent p →
  trim (name_input p) ≠ "" → trim (rollNo_input p) ≠ "" →
  (finishGame t1 st (begin t0 p)).2
  = Some (Message (toUpperCase (trim (name_input p))) (trim (rollNo_input p))
                  (Fin (t1 - t0)) st) ∧
  timerInterval (finishGame t1 st (begin t0 p)).1 = None ∧
  timers (finishGame t1 st (begin t0 p)).1 = timers p ∧
  commands (finishGame t1 st (begin t0 p)).1 = commands p ++ ["START"].
Proof.
  intros (Hh & Ht & Hn) Hname Hroll.
  unfold handleStartTrial, startTimer.
  rewrite !bool_decide_eq_false_2 by done. cbn [orb].
  assert (∃ h, next_handle p = S h) as [h Eh]
    by (destruct (next_handle p); [lia|by eexists]).
  unfold finishGame. cbn [timerInterval]. rewrite Eh. simpl.
  split_and!; try done.
  apply clearInterval_fresh. intros Hin.
  eapply Forall_forall in Ht; [|done]. lia.
Qed.

(** X25: an interval whose handle is lost is never cleared.  Once a
    session has reached a page where an interval is set and
    [timerInterval] does not hold its handle, as after a second begin,
    the interval stays set whatever happens next. *)
Theorem lost_interval_is_never_cleared evs evs' h :
  h ∈ timers (run evs).1 → timerInterval (run evs).1 ≠ Some h →
  h ∈ timers (run (evs ++ evs')).1 ∧ timerInterval (run (evs ++ evs')).1 ≠ Some h.
Proof.
  intros Hin Hne. induction evs' as [|ev evs' IH] using rev_ind.
  { by rewrite app_nil_r. }
  destruct IH as [IH1 IH2]. rewrite app_assoc, session_snoc.
  pose proof (session_invariant (evs ++ evs')) as ((_ & Ht & _) & _).
  destruct (run (evs ++ evs')) as [p msgs]. simpl in *.
  assert (∀ now st,
    h ∈ timers (finishGame now st p).1 ∧
    timerInterval (finishGame now st p).1 ≠ Some h) as Hfin.
  { intros now st. unfold finishGame.
    destruct (timerInterval p) as [[|h']|] eqn:E; simpl; rewrite ?E; try done.
    split; [|done]. apply list_elem_of_filter. split; [|done].
    intros ->. by apply IH2. }
  destruct ev; simpl; try done; try apply Hfin.
  - unfold handleStartTrial, startTimer.
    destruct (bool_decide _ || bool_decide _); simpl; [done|].
    split; [by right|]. intros [= <-].
    eapply Forall_forall in Ht; [|done]. lia.
  - destruct (onSerialData_cases now data p) as [-> | ->]; [done|apply Hfin].
Qed.

(** X26: the board ends a run with FINISH and with nothing else.  The
    listener sends a message exactly when the data is a string that is
    not empty and is FINISH once trimmed, the game screen is the
    active one and a run is being timed. *)
Theorem board_ends_a_run_with_FINISH_only now data p :
  (listen now data p).2 ≠ None ↔
  ∃ s, data = VStr s ∧ s ≠ "" ∧ trim s = "FINISH" ∧
       active p = Game ∧ timed p = true.
Proof.
  unfold onSerialData. split.
  - destruct data as [| | | |s]; try done.
    destruct (decide (s = "")) as [->|Hs]; [done|].
    rewrite bool_decide_eq_false_2 by done.
    destruct (decide (active p = Game)) as [Ha|Ha];
      [|by rewrite (bool_decide_eq_false_2 (active p = Game))].
    destruct (decide (trim s = "FINISH")) as [Hf|Hf];
      [|by rewrite (bool_decide_eq_false_2 (trim s = "FINISH")), andb_false_r].
    rewrite !bool_decide_eq_true_2 by done. simpl. intros Hm.
    exists s. split_and!; try done.
    destruct (timed p) eqn:E; [done|]. by rewrite finishGame_idle in Hm.
  - intros (s & -> & Hs & Hf & Ha & Ht).
    rewrite bool_decide_eq_false_2, !bool_decide_eq_true_2 by done. simpl.
    by destruct (finishGame_timed now "success" p Ht) as (h & _ & ->).
Qed.

End Strings.

Lemma clock_reading_determines_time_witness :
  formatTime (Fin 59999) ≠ formatTime (Fin 60000).
Proof. apply (clock_reading_determines_time 59999 60000); lia. Defined.

Lemma clock_is_nine_wide_below_100_minutes_witness :
  String.length (formatTime (Fin 5999999)) = 9%nat ∧
  String.length (formatTime (Fin 6000000)) ≠ 9%nat.
Proof.
  split.
  - apply (proj2 (clock_is_nine_wide_below_100_minutes 5999999 ltac:(lia))). lia.
  - intros H.
    apply (proj1 (clock_is_nine_wide_below_100_minutes 6000000 ltac:(lia))) in H.
    lia.
Defined.

Lemma ranking_is_sorted_witness :
  let data := [Player (VStr "AMY") "p1" (Fin 5000) (Fin 1) (Fin 0) false;
               Player (VStr "BO") "p2" PInf (Fin 0) (Fin 1) false;
               Player (VStr "CY") "p3" (Fin 4000) (Fin 2) (Fin 0) false] in
  StronglySorted not_after (sortedData data) ∧
  sortedData data ≡ₚ successfulPlayers data.
Proof.
  intros data. apply (ranking_is_sorted data).
  repeat constructor; discriminate.
Defined.

Lemma top10_are_the_best_witness :
  let data := [Player (VStr "AMY") "p1" (Fin 5000) (Fin 1) (Fin 0) false;
               Player (VStr "BO") "p2" PInf (Fin 0) (Fin 1) false;
               Player (VStr "CY") "p3" (Fin 4000) (Fin 2) (Fin 0) false] in
  top10 data ≡ₚ successfulPlayers data.
Proof.
  intros data.
  refine (proj1 (proj2 (top10_are_the_best data _)) _).
  - repeat constructor; discriminate.
  - vm_compute. lia.
Defined.

Lemma record_is_rank_one_witness :
  let data := [Player (VStr "AMY") "p1" (Fin 5000) (Fin 1) (Fin 0) false;
               Player (VStr "BO") "p2" PInf (Fin 0) (Fin 1) false;
               Player (VStr "CY") "p3" (Fin 4000) (Fin 2) (Fin 0) false] in
  bestTime data = time <$> head (sortedData data).
Proof.
  intros data. apply (record_is_rank_one data).
  repeat constructor; discriminate.
Defined.

Lemma statistics_count_every_run_witness :
  let amy t st := Entry (VStr "AMY") (VStr "p1") t (VStr st) in
  let bo t st := Entry (VStr "BO") (VStr "p2") t (VStr st) in
  let es := [amy 5000 "success"; bo 4000 "success"; amy 9000 "defeat";
             amy 4500 "success"; bo 100 "defeat"] in
  totalAttempts (readData decimal (apply_all decimal xlsx_text fresh es)) = Fin 5.
Proof.
  intros amy bo es.
  refine (proj2 (proj2 (statistics_count_every_run decimal xlsx_text es _ _)));
    apply (bool_decide_unpack _); vm_compute; exact I.
Defined.

Lemma run_is_timed_from_begin_to_end_witness :
  let p := type_inputs " Amy " "p1" initial in
  (finishGame 6000 "success"
     (handleStartTrial JS.trim_ascii JS.toUpperCase_ascii 1000 p)).2
  = Some (Message "AMY" "p1" (Fin 5000) "success").
Proof.
  intros p.
  refine (proj1 (run_is_timed_from_begin_to_end JS.trim_ascii
                   JS.toUpperCase_ascii 1000 6000 "success" p _ _ _)).
  - split_and!; simpl; [by intros h [=]|constructor|lia].
  - vm_compute. discriminate.
  - vm_compute. discriminate.
Defined.

Lemma lost_interval_is_never_cleared_witness :
  let twice := [Typed "Amy" "p1"; StartClicked 1000; StartClicked 3000] in
  let later := [FinishClicked 9000; ResultsShown; PlayAgainClicked;
                Typed "Bo" "p2"; StartClicked 20000; DefeatClicked 30000] in
  (1%nat ∈ timers (session JS.trim_ascii JS.toUpperCase_ascii (twice ++ later)).1) ∧
  timers (session JS.trim_ascii JS.toUpperCase_ascii (twice ++ later)).1 = [1%nat].
Proof.
  intros twice later. split; [|reflexivity].
  apply (lost_interval_is_never_cleared JS.trim_ascii JS.toUpperCase_ascii
           twice later 1%nat).
  - apply (bool_decide_unpack _). vm_compute. exact I.
  - vm_compute. discriminate.
Defined.

Lemma board_ends_a_run_with_FINISH_only_witness :
  (onSerialData JS.trim_ascii 6000 (VStr " FINISH ") amy_playing).2 ≠ None ∧
  (onSerialData JS.trim_ascii 6000 (VStr "FINISHED") amy_playing).2 = None.
Proof.
  split.
  - apply (proj2 (board_ends_a_run_with_FINISH_only JS.trim_ascii 6000
                    (VStr " FINISH ") amy_playing)).
    exists " FINISH ". split_and!; [done|done|reflexivity|done|done].
  - destruct (onSerialData JS.trim_ascii 6000 (VStr "FINISHED") amy_playing).2
      as [m|] eqn:E; [|done].
    exfalso.
    assert ((onSerialData JS.trim_ascii 6000 (VStr "FINISHED") amy_playing).2
            ≠ None) as H by (by rewrite E).
    apply (proj1 (board_ends_a_run_with_FINISH_only JS.trim_ascii 6000
                    (VStr "FINISHED") amy_playing)) in H.
    destruct H as (s & [= <-] & _ & Hf & _). vm_compute in Hf. discriminate Hf.
Defined.

Example a_session_sends_its_runs :
  (session JS.trim_ascii JS.toUpperCase_ascii
     [Typed "Amy" "p1"; StartClicked 1000; SerialData 6000 (VStr "FINISH");
      SerialData 6001 (VStr "FINISH"); FinishClicked 6002]).2
  = [Message "AMY" "p1" (Fin 5000) "success"].
Proof. reflexivity. Qed.

End ViewFacts.
